(** * messagebus: an in-process publish/subscribe bus

    Shallow embedding of [src/index.ts] and proofs about its subscription,
    backlog-replay, publish and eviction behaviour.

    Modelling conventions.
    - JavaScript numbers that the bus uses as counters and ids are integers
      ([Z]); the loss of precision above 2^53 is not modelled.
    - [Subscription] objects are shared between the caller (who holds the
      object returned by [subscribe]) and the array [topic.subscriptions].
      They live in a heap, a list indexed by addresses ([Ref]); a topic
      stores addresses, [subscribe] returns one, [unsubscribe] takes one.
    - A callback is an opaque function, named by a number.  Invoking it is
      an observable event, recorded as a [Call] in the trace an operation
      returns.  Callbacks are taken to return normally and not to call back
      into the bus.
    - [new Date()] is the argument [now] of [sendMessage].
    - The [while] loop of [cleanOldMessages] runs on fuel; running out of
      fuel ([None]) stands for a loop that has not finished. *)

From Stdlib Require Import ZArith Lia String.
From stdpp Require Import base list strings.

(** * The program *)

(** ** Data model *)

Abbreviation MessageID := Z (only parsing).
Abbreviation TopicID := string (only parsing).
Abbreviation SubscriptionID := Z (only parsing).
Abbreviation SubscriptionCallback := nat (only parsing).
Abbreviation Payload := string (only parsing).
Abbreviation Ref := nat (only parsing).

Record Message := mkMessage {
  msg_id : MessageID;
  msg_payload : Payload;
  msg_timestamp : Z
}.

Record Subscription := mkSubscription {
  sub_id : SubscriptionID;
  sub_topic : TopicID;
  sub_lastMessageId : option MessageID;
  sub_callback : SubscriptionCallback;
  sub_active : bool
}.

Abbreviation Heap := (list Subscription) (only parsing).

Record Topic := mkTopic {
  topic_name : TopicID;
  topic_messages : list Message;
  topic_subscriptions : list Ref;
  topic_maxLogSize : Z;
  topic_nextSubId : Z;
  topic_nextMessageID : Z
}.

Record Bus := mkBus { bus_topics : list Topic }.

Inductive BacklogStrategy := IGNORE | LATEST | FULL.

Record SubsciptionOptions := mkOptions {
  opt_id : option SubscriptionID;
  opt_backlogStrategy : option BacklogStrategy;
  opt_startActive : option bool
}.

(** One invocation [callback(message)]. *)
Record Call := mkCall {
  call_callback : SubscriptionCallback;
  call_message : Message
}.

(** ** JavaScript primitives used by the source *)

(** [a === b] on values of type [number | null]. *)
Definition strict_eq (a b : option MessageID) : bool :=
  match a, b with
  | Some x, Some y => (x =? y)%Z
  | None, None => true
  | _, _ => false
  end.

(** Truthiness of a value of type [number | null]: [null] and [0] are falsy. *)
Definition truthy (a : option MessageID) : bool :=
  match a with
  | Some x => negb (x =? 0)%Z
  | None => false
  end.

(** Truthiness of an object reference or [null]. *)
Definition non_null {A : Type} (a : option A) : bool :=
  match a with
  | Some _ => true
  | None => false
  end.

(** [Array.prototype.findIndex]: the first index whose element satisfies
    [p], or [-1]. *)
Fixpoint findIndex_from {A : Type} (p : A -> bool) (i : Z) (l : list A) : Z :=
  match l with
  | [] => (-1)%Z
  | x :: l' => if p x then i else findIndex_from p (i + 1)%Z l'
  end.

Definition findIndex {A : Type} (p : A -> bool) (l : list A) : Z :=
  findIndex_from p 0%Z l.

(** [Array.prototype.filter] with the two-argument predicate
    [(element, idx) => ...]. *)
Fixpoint filter_idx_from {A : Type} (f : A -> Z -> bool) (i : Z) (l : list A)
  : list A :=
  match l with
  | [] => []
  | x :: l' =>
      if f x i then x :: filter_idx_from f (i + 1)%Z l'
      else filter_idx_from f (i + 1)%Z l'
  end.

Definition filter_idx {A : Type} (f : A -> Z -> bool) (l : list A) : list A :=
  filter_idx_from f 0%Z l.

(** [topic.subscriptions.find(subscription => subscription.id === id)],
    returning the address together with the object found there. *)
Fixpoint find_subscription (h : Heap) (id : SubscriptionID) (refs : list Ref)
  : option (Ref * Subscription) :=
  match refs with
  | [] => None
  | r :: refs' =>
      match h !! r with
      | Some subscription =>
          if (sub_id subscription =? id)%Z then Some (r, subscription)
          else find_subscription h id refs'
      | None => find_subscription h id refs'
      end
  end.

(** [bus.topics.find(topic => topic.name === name)]. *)
Fixpoint find_topic (name : TopicID) (ts : list Topic) : option Topic :=
  match ts with
  | [] => None
  | topic :: ts' =>
      if String.eqb (topic_name topic) name then Some topic
      else find_topic name ts'
  end.

(** ** getTopic *)

(** [maxLogSize || -1] for an optional number: [undefined] and [0] are
    falsy. *)
Definition maxLogSize_or_default (maxLogSize : option Z) : Z :=
  match maxLogSize with
  | Some k => if (k =? 0)%Z then (-1)%Z else k
  | None => (-1)%Z
  end.

Definition getTopic (bus : Bus) (name : TopicID) (maxLogSize : option Z)
  : Bus * Topic :=
  match find_topic name (bus_topics bus) with
  | Some maybeExisting => (bus, maybeExisting)
  | None =>
      let topic :=
        {| topic_name := name;
           topic_messages := [];
           topic_subscriptions := [];
           topic_maxLogSize := maxLogSize_or_default maxLogSize;
           topic_nextMessageID := 0;
           topic_nextSubId := 0 |} in
      (mkBus (bus_topics bus ++ [topic]), topic)
  end.

(** ** getBus *)

(** The global state [getBus] works on: the [Bus] objects allocated so far,
    addressed by their position, and [window].  [g_window] is [None] where
    [typeof window === 'undefined']; otherwise it holds [window.bus], the
    address of a [Bus] object or [undefined] ([None]). *)
Record Global := mkGlobal {
  g_buses : list Bus;
  g_window : option (option nat)
}.

(** Returns the address of the bus together with the global state it
    leaves. *)
Definition getBus (g : Global) : Global * nat :=
  match g_window g with
  | Some (Some bus) => (g, bus)
  | Some None =>
      let bus := length (g_buses g) in
      ({| g_buses := g_buses g ++ [mkBus []];
          g_window := Some (Some bus) |}, bus)
  | None =>
      let bus := length (g_buses g) in
      ({| g_buses := g_buses g ++ [mkBus []]; g_window := None |}, bus)
  end.

(** ** subscribe *)

Definition resolve_backlogStrategy (options : option SubsciptionOptions)
  : BacklogStrategy :=
  match options with
  | Some o =>
      match opt_backlogStrategy o with
      | Some strategy => strategy
      | None => FULL
      end
  | None => FULL
  end.

(** [options && options.startActive ? options.startActive : true]. *)
Definition resolve_startActive (options : option SubsciptionOptions) : bool :=
  match options with
  | Some o =>
      match opt_startActive o with
      | Some b => if b then b else true
      | None => true
      end
  | None => true
  end.

(** [options && typeof options.id !== 'undefined' ? options.id
     : topic.nextSubId]. *)
Definition resolve_id (topic : Topic) (options : option SubsciptionOptions)
  : SubscriptionID :=
  match options with
  | Some o =>
      match opt_id o with
      | Some i => i
      | None => topic_nextSubId topic
      end
  | None => topic_nextSubId topic
  end.

Record SubscribeResult := mkSubscribeResult {
  sr_heap : Heap;
  sr_topic : Topic;
  sr_ref : Ref;
  sr_calls : list Call
}.

(** The backlog replay of the update path (lines 138-160). *)
Definition resume_calls (backlogStrategy : BacklogStrategy) (startActive : bool)
    (messages : list Message) (maybeExisting : Subscription)
    (callback : SubscriptionCallback) : list Call :=
  let lastMessage := last messages in
  let lastMessageId := msg_id <$> lastMessage in
  if truthy (sub_lastMessageId maybeExisting)
     && negb (strict_eq (sub_lastMessageId maybeExisting) lastMessageId)
     && non_null lastMessage
     && startActive
  then
    match backlogStrategy with
    | FULL =>
        let lastSeenMessageIndex :=
          findIndex
            (fun message =>
               strict_eq (Some (msg_id message))
                         (sub_lastMessageId maybeExisting))
            messages in
        let backlog :=
          filter_idx (fun _ idx => (idx >? lastSeenMessageIndex)%Z) messages in
        map (mkCall callback) backlog
    | LATEST =>
        match lastMessage with
        | Some m => [mkCall callback m]
        | None => []
        end
    | IGNORE => []
    end
  else [].

(** The backlog replay of the creation path (lines 169-180). *)
Definition fresh_calls (backlogStrategy : BacklogStrategy)
    (messages : list Message) (callback : SubscriptionCallback) : list Call :=
  match backlogStrategy with
  | FULL => map (mkCall callback) messages
  | LATEST =>
      match last messages with
      | Some m => [mkCall callback m]
      | None => []
      end
  | IGNORE => []
  end.

Definition subscribe (h : Heap) (topic : Topic)
    (callback : SubscriptionCallback) (options : option SubsciptionOptions)
  : SubscribeResult :=
  let backlogStrategy := resolve_backlogStrategy options in
  let startActive := resolve_startActive options in
  let id := resolve_id topic options in
  let messages := topic_messages topic in
  let lastMessage := last messages in
  let lastMessageId := msg_id <$> lastMessage in
  match find_subscription h id (topic_subscriptions topic) with
  | Some (r, maybeExisting) =>
      let calls :=
        resume_calls backlogStrategy startActive messages maybeExisting
                     callback in
      let updated :=
        {| sub_id := sub_id maybeExisting;
           sub_topic := sub_topic maybeExisting;
           sub_callback := callback;
           sub_lastMessageId := lastMessageId;
           sub_active := startActive |} in
      {| sr_heap := <[r := updated]> h;
         sr_topic := topic;
         sr_ref := r;
         sr_calls := calls |}
  | None =>
      let calls := fresh_calls backlogStrategy messages callback in
      let subscription :=
        {| sub_id := id;
           sub_topic := topic_name topic;
           sub_callback := callback;
           sub_lastMessageId := lastMessageId;
           sub_active := startActive |} in
      {| sr_heap := h ++ [subscription];
         sr_topic :=
           {| topic_name := topic_name topic;
              topic_messages := topic_messages topic;
              topic_subscriptions := topic_subscriptions topic ++ [length h];
              topic_maxLogSize := topic_maxLogSize topic;
              topic_nextSubId := (topic_nextSubId topic + 1)%Z;
              topic_nextMessageID := topic_nextMessageID topic |};
         sr_ref := length h;
         sr_calls := calls |}
  end.

(** ** cleanOldMessages *)

(** [while (topic.messages.length > topic.maxLogSize) topic.messages.shift()];
    [shift] on an empty array leaves it empty. *)
Fixpoint shift_while (fuel : nat) (maxLogSize : Z) (messages : list Message)
  : option (list Message) :=
  match fuel with
  | O => None
  | S fuel' =>
      if (Z.of_nat (length messages) >? maxLogSize)%Z
      then shift_while fuel' maxLogSize (tail messages)
      else Some messages
  end.

Definition set_messages (topic : Topic) (messages : list Message) : Topic :=
  {| topic_name := topic_name topic;
     topic_messages := messages;
     topic_subscriptions := topic_subscriptions topic;
     topic_maxLogSize := topic_maxLogSize topic;
     topic_nextSubId := topic_nextSubId topic;
     topic_nextMessageID := topic_nextMessageID topic |}.

Definition cleanOldMessages (fuel : nat) (topic : Topic) : option Topic :=
  if (topic_maxLogSize topic =? -1)%Z then Some topic
  else
    match shift_while fuel (topic_maxLogSize topic) (topic_messages topic) with
    | Some messages => Some (set_messages topic messages)
    | None => None
    end.

(** ** sendMessage *)

Definition set_lastMessageId (subscription : Subscription)
    (lastMessageId : option MessageID) : Subscription :=
  {| sub_id := sub_id subscription;
     sub_topic := sub_topic subscription;
     sub_callback := sub_callback subscription;
     sub_lastMessageId := lastMessageId;
     sub_active := sub_active subscription |}.

(** The body of the [forEach] of lines 228-235 for the subscription at
    address [r], on the heap and the trace so far. *)
Definition deliver (message : Message) (st : Heap * list Call) (r : Ref)
  : Heap * list Call :=
  match st.1 !! r with
  | Some subscription =>
      if sub_active subscription
      then (<[r := set_lastMessageId subscription (Some (msg_id message))]> st.1,
            st.2 ++ [mkCall (sub_callback subscription) message])
      else st
  | None => st
  end.

Record SendResult := mkSendResult {
  sd_heap : Heap;
  sd_topic : Topic;
  sd_calls : list Call
}.

Definition sendMessage (fuel : nat) (h : Heap) (topic : Topic)
    (payload : Payload) (now : Z) : option SendResult :=
  let message :=
    {| msg_id := topic_nextMessageID topic;
       msg_payload := payload;
       msg_timestamp := now |} in
  let pushed :=
    {| topic_name := topic_name topic;
       topic_messages := topic_messages topic ++ [message];
       topic_subscriptions := topic_subscriptions topic;
       topic_maxLogSize := topic_maxLogSize topic;
       topic_nextSubId := topic_nextSubId topic;
       topic_nextMessageID := (topic_nextMessageID topic + 1)%Z |} in
  match cleanOldMessages fuel pushed with
  | Some cleaned =>
      let st := fold_left (deliver message) (topic_subscriptions cleaned)
                          (h, []) in
      Some {| sd_heap := st.1; sd_topic := cleaned; sd_calls := st.2 |}
  | None => None
  end.

(** ** unsubscribe *)

Definition set_active (subscription : Subscription) (active : bool)
  : Subscription :=
  {| sub_id := sub_id subscription;
     sub_topic := sub_topic subscription;
     sub_callback := sub_callback subscription;
     sub_lastMessageId := sub_lastMessageId subscription;
     sub_active := active |}.

Definition unsubscribe (h : Heap) (r : Ref) : Heap :=
  match h !! r with
  | Some subscription => <[r := set_active subscription false]> h
  | None => h
  end.

(** ** Sequences of calls on one topic *)

Inductive Op :=
| OpSubscribe (callback : SubscriptionCallback)
              (options : option SubsciptionOptions)
| OpSendMessage (payload : Payload) (now : Z)
| OpUnsubscribe (r : Ref).

Record World := mkWorld {
  w_heap : Heap;
  w_topic : Topic;
  w_trace : list Call
}.

Definition step (fuel : nat) (w : World) (o : Op) : option World :=
  match o with
  | OpSubscribe callback options =>
      let res := subscribe (w_heap w) (w_topic w) callback options in
      Some {| w_heap := sr_heap res;
              w_topic := sr_topic res;
              w_trace := w_trace w ++ sr_calls res |}
  | OpSendMessage payload now =>
      match sendMessage fuel (w_heap w) (w_topic w) payload now with
      | Some res =>
          Some {| w_heap := sd_heap res;
                  w_topic := sd_topic res;
                  w_trace := w_trace w ++ sd_calls res |}
      | None => None
      end
  | OpUnsubscribe r =>
      Some {| w_heap := unsubscribe (w_heap w) r;
              w_topic := w_topic w;
              w_trace := w_trace w |}
  end.

Fixpoint run (fuel : nat) (ops : list Op) (w : World) : option World :=
  match ops with
  | [] => Some w
  | o :: ops' =>
      match step fuel w o with
      | Some w' => run fuel ops' w'
      | None => None
      end
  end.

Definition is_send (o : Op) : bool :=
  match o with
  | OpSendMessage _ _ => true
  | _ => false
  end.

(** The number of [sendMessage] calls in a sequence. *)
Definition sends (ops : list Op) : nat := length (List.filter is_send ops).

(** How often a callback appears in a trace. *)
Definition times_called (callback : SubscriptionCallback) (tr : list Call)
  : nat :=
  length (List.filter (fun c => Nat.eqb (call_callback c) callback) tr).

(** ** The scenarios of the repository's test file *)

Definition with_strategy (s : BacklogStrategy) : option SubsciptionOptions :=
  Some {| opt_id := None; opt_backlogStrategy := Some s;
          opt_startActive := None |}.

Definition with_id (i : SubscriptionID) : option SubsciptionOptions :=
  Some {| opt_id := Some i; opt_backlogStrategy := None;
          opt_startActive := None |}.

Definition with_startActive (b : bool) : option SubsciptionOptions :=
  Some {| opt_id := None; opt_backlogStrategy := None;
          opt_startActive := Some b |}.

Definition fresh_world (maxLogSize : option Z) : World :=
  {| w_heap := [];
     w_topic := (getTopic (mkBus []) "testtopic" maxLogSize).2;
     w_trace := [] |}.

Definition four_sends : list Op :=
  [OpSendMessage "some message" 1; OpSendMessage "two" 2;
   OpSendMessage "three" 3; OpSendMessage "some message" 4].

Definition scenario : list Op :=
  [OpSubscribe 1 None] ++ four_sends
  ++ [OpSubscribe 2 (with_strategy IGNORE);
      OpSubscribe 3 (with_strategy LATEST);
      OpSubscribe 4 (with_strategy FULL);
      OpSubscribe 1 (with_id 0);
      OpUnsubscribe 0]
  ++ four_sends.

(** * Specification-side definitions *)

(** ** What the specification says, in its own words *)

(** The backlog replayer of the specification: a function of the strategy,
    the candidate window and the callback. *)
Definition spec_replay (strategy : BacklogStrategy) (window : list Message)
    (callback : SubscriptionCallback) : list Call :=
  match strategy with
  | IGNORE => []
  | LATEST =>
      match last window with
      | Some newest => [mkCall callback newest]
      | None => []
      end
  | FULL => map (mkCall callback) window
  end.

(** The messages strictly newer than message id [c]. *)
Definition newer_than (c : MessageID) (messages : list Message)
  : list Message :=
  List.filter (fun m => (c <? msg_id m)%Z) messages.

(** The messages strictly newer than a stored cursor; a subscription that
    has seen nothing ([null]) has every message ahead of it. *)
Definition newer_than_cursor (cursor : option MessageID)
    (messages : list Message) : list Message :=
  match cursor with
  | Some c => newer_than c messages
  | None => messages
  end.

(** Eviction as the specification states it: nothing for [-1], otherwise
    the oldest messages go until at most [maxLogSize] remain. *)
Definition spec_evict (maxLogSize : Z) (messages : list Message)
  : list Message :=
  if (maxLogSize =? -1)%Z then messages
  else drop (length messages - Z.to_nat maxLogSize) messages.

(** Fan-out as the specification states it: the subscriptions in
    registration order, one invocation for each active one. *)
Fixpoint spec_fanout (h : Heap) (message : Message) (refs : list Ref)
  : list Call :=
  match refs with
  | [] => []
  | r :: refs' =>
      match h !! r with
      | Some subscription =>
          if sub_active subscription
          then mkCall (sub_callback subscription) message
               :: spec_fanout h message refs'
          else spec_fanout h message refs'
      | None => spec_fanout h message refs'
      end
  end.

(** What a visit of [sendMessage] does to one subscription. *)
Definition visited (message : Message) (subscription : Subscription)
  : Subscription :=
  if sub_active subscription
  then set_lastMessageId subscription (Some (msg_id message))
  else subscription.

(** [maxLogSize] is [-1] (unbounded) or a bound on a length. *)
Definition valid_maxLogSize (topic : Topic) : Prop :=
  (-1 <= topic_maxLogSize topic)%Z.

(** The ids of [messages] are [a], [a+1], [a+2], ... *)
Fixpoint consecutive (a : Z) (messages : list Message) : Prop :=
  match messages with
  | [] => True
  | m :: messages' => msg_id m = a /\ consecutive (a + 1)%Z messages'
  end.

(** The log of a topic holds the ids just below [nextMessageID]. *)
Definition log_ok (topic : Topic) : Prop :=
  consecutive
    (topic_nextMessageID topic - Z.of_nat (length (topic_messages topic)))%Z
    (topic_messages topic).

(** The cursor of a subscription is [null] or the id of a message already
    sent. *)
Definition cursor_ok (topic : Topic) (subscription : Subscription) : Prop :=
  match sub_lastMessageId subscription with
  | Some c => (c < topic_nextMessageID topic)%Z
  | None => True
  end.

(** The invariant of the states the bus reaches. *)
Definition bus_ok (h : Heap) (topic : Topic) : Prop :=
  log_ok topic
  /\ Forall (fun r => exists s, h !! r = Some s /\ cursor_ok topic s)
            (topic_subscriptions topic).

(** The message [sendMessage] builds. *)
Definition new_message (topic : Topic) (payload : Payload) (now : Z)
  : Message :=
  {| msg_id := topic_nextMessageID topic;
     msg_payload := payload;
     msg_timestamp := now |}.

(** The topic after a [sendMessage], as the specification states it:
    the message appended, the counter advanced, the log evicted. *)
Definition spec_sent (topic : Topic) (payload : Payload) (now : Z) : Topic :=
  {| topic_name := topic_name topic;
     topic_messages :=
       spec_evict (topic_maxLogSize topic)
                  (topic_messages topic ++ [new_message topic payload now]);
     topic_subscriptions := topic_subscriptions topic;
     topic_maxLogSize := topic_maxLogSize topic;
     topic_nextSubId := topic_nextSubId topic;
     topic_nextMessageID := (topic_nextMessageID topic + 1)%Z |}.

(** Fuel that lets the eviction loop of the next [sendMessage] finish. *)
Definition enough_fuel (fuel : nat) (topic : Topic) : Prop :=
  topic_maxLogSize topic = (-1)%Z
  \/ length (topic_messages topic) + 1 - Z.to_nat (topic_maxLogSize topic)
     < fuel.

(** The length the log has after [n] more sends. *)
Definition log_length_after (maxLogSize : Z) (len n : nat) : nat :=
  if (maxLogSize =? -1)%Z then len + n
  else Nat.min (len + n) (Z.to_nat maxLogSize).

(** A topic on which every [sendMessage] returns with the given fuel: it is
    unbounded, or its log is within its bound and the fuel covers the one
    [shift] a send then needs. *)
Definition runnable (fuel : nat) (topic : Topic) : Prop :=
  topic_maxLogSize topic = (-1)%Z
  \/ ((0 <= topic_maxLogSize topic)%Z
      /\ length (topic_messages topic) <= Z.to_nat (topic_maxLogSize topic)
      /\ 2 <= fuel).

(** ** Concrete states *)

(** A topic with three subscriptions, the second one inactive, and two
    messages in a log bounded by two. *)
Definition demo_heap : Heap :=
  [ {| sub_id := 0; sub_topic := "news"; sub_lastMessageId := Some 1%Z;
       sub_callback := 10; sub_active := true |};
    {| sub_id := 1; sub_topic := "news"; sub_lastMessageId := Some 0%Z;
       sub_callback := 11; sub_active := false |};
    {| sub_id := 2; sub_topic := "news"; sub_lastMessageId := Some 1%Z;
       sub_callback := 12; sub_active := true |} ].

Definition demo_topic : Topic :=
  {| topic_name := "news";
     topic_messages := [mkMessage 0 "a" 100; mkMessage 1 "b" 101];
     topic_subscriptions := [0; 1; 2];
     topic_maxLogSize := 2;
     topic_nextSubId := 3;
     topic_nextMessageID := 2 |}.

(** The demo topic three messages later, with a log bounded by three: the
    cursors of [demo_heap] are behind. *)
Definition later_topic : Topic :=
  {| topic_name := "news";
     topic_messages := [mkMessage 1 "b" 101; mkMessage 2 "c" 102;
                        mkMessage 3 "d" 103];
     topic_subscriptions := [0; 1; 2];
     topic_maxLogSize := 3;
     topic_nextSubId := 3;
     topic_nextMessageID := 4 |}.

(** A subscription that saw message [1] on a topic that by now holds the
    messages [3] and [4] only. *)
Definition gap_heap : Heap :=
  [ {| sub_id := 0; sub_topic := "testtopic"; sub_lastMessageId := Some 1%Z;
       sub_callback := 1; sub_active := false |} ].

Definition gap_topic : Topic :=
  {| topic_name := "testtopic";
     topic_messages := [mkMessage 3 "d" 4; mkMessage 4 "e" 5];
     topic_subscriptions := [0];
     topic_maxLogSize := 2;
     topic_nextSubId := 1;
     topic_nextMessageID := 5 |}.

(** A subscription that was registered on the empty topic and deactivated
    before the first message: its cursor is [null]. *)
Definition unseen_heap : Heap :=
  [ {| sub_id := 0; sub_topic := "testtopic"; sub_lastMessageId := None;
       sub_callback := 1; sub_active := false |} ].

Definition unseen_topic : Topic :=
  {| topic_name := "testtopic";
     topic_messages := [mkMessage 0 "a" 1];
     topic_subscriptions := [0];
     topic_maxLogSize := -1;
     topic_nextSubId := 1;
     topic_nextMessageID := 1 |}.

(** A subscription that saw the first message (id [0]) and was deactivated
    before the second. *)
Definition behind_heap : Heap :=
  [ {| sub_id := 0; sub_topic := "testtopic"; sub_lastMessageId := Some 0%Z;
       sub_callback := 1; sub_active := false |} ].

Definition behind_topic : Topic :=
  {| topic_name := "testtopic";
     topic_messages := [mkMessage 0 "a" 1; mkMessage 1 "b" 2];
     topic_subscriptions := [0];
     topic_maxLogSize := -1;
     topic_nextSubId := 1;
     topic_nextMessageID := 2 |}.

(** The same on a topic that keeps one message: message [0] is evicted. *)
Definition evicted_topic : Topic :=
  {| topic_name := "testtopic";
     topic_messages := [mkMessage 1 "b" 2];
     topic_subscriptions := [0];
     topic_maxLogSize := 1;
     topic_nextSubId := 1;
     topic_nextMessageID := 2 |}.


(** Options that supply no id. *)
Definition without_id (options : option SubsciptionOptions) : Prop :=
  match options with
  | Some o => opt_id o = None
  | None => True
  end.

(** A call that, if it is a [subscribe] with an explicit id, names the id
    of a subscription the topic of [w] has. *)
Definition explicit_id_exists (w : World) (o : Op) : Prop :=
  match o with
  | OpSubscribe _ (Some {| opt_id := Some i |}) =>
      is_Some (find_subscription (w_heap w) i
                 (topic_subscriptions (w_topic w)))
  | _ => True
  end.

(** Two heaps that hold subscriptions with the same ids at the same
    addresses. *)
Definition same_ids (h h' : Heap) : Prop :=
  forall r : Ref, sub_id <$> h !! r = sub_id <$> h' !! r.

(** A topic whose only subscription was made with the explicit id [1]:
    the id equals [nextSubId]. *)
Definition collision_world : World :=
  {| w_heap :=
       [ {| sub_id := 1; sub_topic := "testtopic"; sub_lastMessageId := None;
            sub_callback := 1; sub_active := true |} ];
     w_topic :=
       {| topic_name := "testtopic";
          topic_messages := [];
          topic_subscriptions := [0];
          topic_maxLogSize := -1;
          topic_nextSubId := 1;
          topic_nextMessageID := 0 |};
     w_trace := [] |}.

(** The claim about a subscription id equal to [nextSubId], as it is
    worded: from then on no [subscribe] without an explicit id creates a
    subscription, whatever calls come in between. *)
Definition collision_claim_as_stated : Prop :=
  forall (fuel : nat) (w w' : World) (r : Ref) (s : Subscription)
         (ops : list Op) (callback : SubscriptionCallback)
         (options : option SubsciptionOptions),
    find_subscription (w_heap w) (topic_nextSubId (w_topic w))
                      (topic_subscriptions (w_topic w)) = Some (r, s) ->
    run fuel ops w = Some w' ->
    without_id options ->
    sr_ref (subscribe (w_heap w') (w_topic w') callback options) = r
    /\ topic_nextSubId
         (sr_topic (subscribe (w_heap w') (w_topic w') callback options))
       = topic_nextSubId (w_topic w).

(** What [sendMessage] reads of a subscription: its callback and whether
    it is active. *)
Definition shape (s : Subscription) : SubscriptionCallback * bool :=
  (sub_callback s, sub_active s).

Definition same_shape (h h' : Heap) : Prop :=
  forall r : Ref, shape <$> h !! r = shape <$> h' !! r.

(** A call made for an active subscription of [refs] other than the one at
    [r]. *)
Definition called_for_other (h : Heap) (refs : list Ref) (r : Ref) (c : Call)
  : Prop :=
  exists r' s',
    r' ∈ refs /\ r' <> r /\ h !! r' = Some s'
    /\ sub_active s' = true /\ call_callback c = sub_callback s'.

(** ** Further notions for the properties of the whole code *)

(** The messages a sequence of calls sends, the first one with the id
    [next]. *)
Fixpoint sent_from (next : Z) (ops : list Op) : list Message :=
  match ops with
  | [] => []
  | OpSendMessage payload now :: ops' =>
      mkMessage next payload now :: sent_from (next + 1)%Z ops'
  | _ :: ops' => sent_from next ops'
  end.

Definition is_subscribe (o : Op) : bool :=
  match o with
  | OpSubscribe _ _ => true
  | _ => false
  end.

(** The number of [subscribe] calls in a sequence. *)
Definition subscribes (ops : list Op) : nat :=
  length (List.filter is_subscribe ops).

(** A call that is no [subscribe] with an explicit id. *)
Definition no_explicit_id (o : Op) : Prop :=
  match o with
  | OpSubscribe _ options => without_id options
  | _ => True
  end.

(** The ids of the subscriptions at the addresses [refs], in order. *)
Fixpoint sub_ids (h : Heap) (refs : list Ref) : list SubscriptionID :=
  match refs with
  | [] => []
  | r :: refs' =>
      match h !! r with
      | Some s => sub_id s :: sub_ids h refs'
      | None => sub_ids h refs'
      end
  end.

(** Every address of [refs] holds a subscription. *)
Definition refs_valid (h : Heap) (refs : list Ref) : Prop :=
  Forall (fun r => is_Some (h !! r)) refs.

(** Every active subscription of the topic has the newest message as its
    cursor. *)
Definition up_to_date (h : Heap) (topic : Topic) : Prop :=
  Forall (fun r =>
            forall s, h !! r = Some s -> sub_active s = true ->
                      sub_lastMessageId s
                      = msg_id <$> last (topic_messages topic))
         (topic_subscriptions topic).

(** The world in which a topic has just been created by [getTopic]. *)
Definition created_world (bus : Bus) (name : TopicID) (maxLogSize : option Z)
    (h : Heap) : World :=
  {| w_heap := h;
     w_topic := (getTopic bus name maxLogSize).2;
     w_trace := [] |}.

(** Three subscriptions without an id, with sends and an unsubscribe in
    between. *)
Definition scenario_without_ids : list Op :=
  [OpSubscribe 1 None; OpSendMessage "a" 1;
   OpSubscribe 2 (with_strategy LATEST); OpUnsubscribe 0;
   OpSendMessage "b" 2; OpSubscribe 1 (with_startActive false)].

(** The topic with its bound lifted. *)
Definition set_maxLogSize_unbounded (topic : Topic) : Topic :=
  {| topic_name := topic_name topic;
     topic_messages := topic_messages topic;
     topic_subscriptions := topic_subscriptions topic;
     topic_maxLogSize := -1;
     topic_nextSubId := topic_nextSubId topic;
     topic_nextMessageID := topic_nextMessageID topic |}.

(** Cursors and message ids are not negative: the log is no longer than
    the number of messages sent, and every cursor of a subscription of the
    topic is [null] or at least [0]. *)
Definition ids_not_negative (h : Heap) (topic : Topic) : Prop :=
  (Z.of_nat (length (topic_messages topic)) <= topic_nextMessageID topic)%Z
  /\ Forall (fun r =>
               forall s c, h !! r = Some s ->
                           sub_lastMessageId s = Some c -> (0 <= c)%Z)
            (topic_subscriptions topic).

(** * Proofs *)

(** Apply an induction hypothesis to the state the remaining calls start
    from. *)
Tactic Notation "use_IH" constr(IH) "as" simple_intropattern(pat) :=
  lazymatch goal with
  | |- context [run _ _ ?w1] => destruct (IH w1) as pat
  end.

(** ** The eviction loop *)

Lemma shift_while_bounded (k : Z) :
    (0 <= k)%Z ->
    forall (fuel : nat) (messages : list Message),
      length messages - Z.to_nat k < fuel ->
      shift_while fuel k messages
      = Some (drop (length messages - Z.to_nat k) messages).
  Proof.
    intros Hk fuel. induction fuel as [|fuel IH]; intros messages Hfuel.
    - lia.
    - simpl. destruct (Z.gtb_spec (Z.of_nat (length messages)) k) as [Hgt|Hle].
      + destruct messages as [|m messages']; simpl in *; [lia|].
        rewrite IH by lia.
        replace (S (length messages') - Z.to_nat k)
          with (S (length messages' - Z.to_nat k)) by lia.
        reflexivity.
      + replace (length messages - Z.to_nat k) with 0 by lia.
        reflexivity.
  Qed.

  (** Below zero the loop condition never becomes false. *)
Lemma shift_while_negative (k : Z) :
    (k < 0)%Z ->
    forall (fuel : nat) (messages : list Message),
      shift_while fuel k messages = None.
  Proof.
    intros Hk fuel. induction fuel as [|fuel IH]; intros messages.
    - reflexivity.
    - simpl. destruct (Z.gtb_spec (Z.of_nat (length messages)) k); [apply IH|lia].
  Qed.

Lemma cleanOldMessages_returns (fuel : nat) (topic : Topic) :
  valid_maxLogSize topic ->
  topic_maxLogSize topic = (-1)%Z
  \/ length (topic_messages topic) - Z.to_nat (topic_maxLogSize topic) < fuel ->
  cleanOldMessages fuel topic
  = Some (set_messages topic
            (spec_evict (topic_maxLogSize topic) (topic_messages topic))).
Proof.
  unfold valid_maxLogSize, cleanOldMessages, spec_evict. intros Hv Hfuel.
  destruct (Z.eqb_spec (topic_maxLogSize topic) (-1)) as [Heq|Hne].
  - destruct topic; reflexivity.
  - rewrite shift_while_bounded by lia. reflexivity.
Qed.

(** A bound below [-1] makes [cleanOldMessages] loop for ever. *)
Lemma cleanOldMessages_diverges (fuel : nat) (topic : Topic) :
    (topic_maxLogSize topic < -1)%Z -> cleanOldMessages fuel topic = None.
  Proof.
    unfold cleanOldMessages. intros Hlt.
    destruct (Z.eqb_spec (topic_maxLogSize topic) (-1)); [lia|].
    rewrite shift_while_negative by lia. reflexivity.
  Qed.


(** ** The fan-out of [sendMessage] *)

Section FanOut.

Variable message : Message.

Lemma spec_fanout_insert (h : Heap) (r : Ref) (s : Subscription)
    (c : option MessageID) (refs : list Ref) :
  h !! r = Some s ->
  spec_fanout (<[r := set_lastMessageId s c]> h) message refs
  = spec_fanout h message refs.
Proof.
  intros Hr. induction refs as [|r' refs IH]; cbn [spec_fanout]; [reflexivity|].
  rewrite IH. destruct (decide (r = r')) as [<-|Hne].
  - rewrite list_lookup_insert_eq by (eapply lookup_lt_Some; eassumption).
    rewrite Hr. reflexivity.
  - rewrite list_lookup_insert_ne by assumption. reflexivity.
Qed.

(** The trace of the loop: what was there, then one call for each active
    subscription, in the order of the array. *)
Lemma fold_deliver_calls (refs : list Ref) (h : Heap) (tr : list Call) :
  (fold_left (deliver message) refs (h, tr)).2
  = tr ++ spec_fanout h message refs.
Proof.
  revert h tr. induction refs as [|r refs IH]; intros h tr;
    cbn [fold_left spec_fanout].
  - rewrite app_nil_r. reflexivity.
  - unfold deliver at 2. cbn [fst snd]. destruct (h !! r) as [s|] eqn:Hr.
    + destruct (sub_active s).
      * rewrite IH, spec_fanout_insert by assumption.
        rewrite <- app_assoc. reflexivity.
      * apply IH.
    + apply IH.
Qed.

Lemma deliver_heap (h : Heap) (tr : list Call) (r : Ref) :
  (deliver message (h, tr) r).1 = alter (visited message) r h.
Proof.
  unfold deliver. cbn [fst snd]. apply list_eq. intros i.
  rewrite list_lookup_alter. unfold visited.
  destruct (h !! r) as [s|] eqn:Hr.
  - destruct (sub_active s) eqn:Ha; simpl.
    + rewrite list_lookup_insert by (eapply lookup_lt_Some; eassumption).
      destruct (decide (r = i)) as [<-|Hne].
      * rewrite decide_True
          by (split; [reflexivity|eapply lookup_lt_Some; eassumption]).
        rewrite Ha. reflexivity.
      * rewrite decide_False by tauto. reflexivity.
    + destruct (decide (r = i)) as [<-|Hne]; [|reflexivity].
      rewrite Ha. assumption.
  - destruct (decide (r = i)) as [<-|Hne]; [|reflexivity].
    simpl. assumption.
Qed.

Lemma visited_idempotent (s : Subscription) :
  visited message (visited message s) = visited message s.
Proof. unfold visited. destruct s as [i t c cb []]; reflexivity. Qed.

(** The heap after the loop: the subscriptions of the array are visited,
    every other object is as it was. *)
Lemma fold_deliver_heap (refs : list Ref) (h : Heap) (tr : list Call)
    (r : Ref) :
  (fold_left (deliver message) refs (h, tr)).1 !! r
  = if decide (r ∈ refs) then visited message <$> h !! r else h !! r.
Proof.
  revert h tr. induction refs as [|r' refs IH]; intros h tr; cbn [fold_left].
  - rewrite decide_False by apply not_elem_of_nil. reflexivity.
  - destruct (deliver message (h, tr) r') as [h1 tr1] eqn:Hd.
    assert (Hh1 : h1 = alter (visited message) r' h).
    { rewrite <- (deliver_heap h tr r'), Hd. reflexivity. }
    rewrite IH, Hh1. destruct (decide (r = r')) as [->|Hne].
    + rewrite list_lookup_alter_eq.
      rewrite (decide_True (P := r' ∈ r' :: refs)) by apply list_elem_of_here.
      destruct (decide (r' ∈ refs)); [|reflexivity].
      destruct (h !! r') as [s|]; simpl; [|reflexivity].
      rewrite visited_idempotent. reflexivity.
    + rewrite list_lookup_alter_ne by congruence.
      destruct (decide (r ∈ refs)) as [Hin|Hnin].
      * rewrite decide_True by (apply list_elem_of_further; assumption).
        reflexivity.
      * rewrite decide_False; [reflexivity|].
        intros Hin. apply elem_of_cons in Hin. tauto.
Qed.

End FanOut.

(** ** [sendMessage] as a whole *)

Lemma sendMessage_returns (fuel : nat) (h : Heap) (topic : Topic)
    (payload : Payload) (now : Z) :
  valid_maxLogSize topic ->
  enough_fuel fuel topic ->
  sendMessage fuel h topic payload now
  = Some {| sd_heap :=
              (fold_left (deliver (new_message topic payload now))
                         (topic_subscriptions topic) (h, [])).1;
            sd_topic := spec_sent topic payload now;
            sd_calls :=
              spec_fanout h (new_message topic payload now)
                          (topic_subscriptions topic) |}.
Proof.
  intros Hv Hfuel. unfold sendMessage.
  rewrite cleanOldMessages_returns.
  - cbn [topic_subscriptions set_messages topic_messages topic_maxLogSize].
    rewrite fold_deliver_calls. reflexivity.
  - exact Hv.
  - unfold enough_fuel in Hfuel. cbn [topic_maxLogSize topic_messages].
    rewrite length_app. simpl. destruct Hfuel; [left|right]; lia.
Qed.

(** Outside the valid bounds a [sendMessage] never returns. *)
Lemma sendMessage_diverges (fuel : nat) (h : Heap) (topic : Topic)
    (payload : Payload) (now : Z) :
  (topic_maxLogSize topic < -1)%Z ->
  sendMessage fuel h topic payload now = None.
Proof.
  intros Hlt. unfold sendMessage.
  rewrite cleanOldMessages_diverges by exact Hlt. reflexivity.
Qed.

(** ** Publishing *)

(** C4, on a topic with a bound below [-1]: a topic is created with
    [maxLogSize = -2] and a callback subscribed, so that the topic has one
    active subscription; the next [sendMessage] pushes the message and then
    never leaves the loop of [cleanOldMessages] (the array is emptied and
    [shift] goes on for ever), so it does not return, with whatever fuel, and
    the active subscription is never visited. *)
Theorem sendMessage_below_minus_one_never_fans_out (fuel : nat) :
  exists w,
    run fuel [OpSubscribe 1 None] (fresh_world (Some (-2)%Z)) = Some w
    /\ topic_maxLogSize (w_topic w) = (-2)%Z
    /\ topic_subscriptions (w_topic w) = [0]
    /\ w_heap w !! 0
       = Some {| sub_id := 0; sub_topic := "testtopic";
                 sub_lastMessageId := None;
                 sub_callback := 1; sub_active := true |}
    /\ sendMessage fuel (w_heap w) (w_topic w) "a" 1 = None
    /\ run fuel [OpSubscribe 1 None; OpSendMessage "a" 1]
           (fresh_world (Some (-2)%Z)) = None.
Proof.
  eexists. split; [reflexivity|]. cbn [w_topic w_heap].
  split; [reflexivity|]. split; [reflexivity|]. split; [reflexivity|].
  assert (Hsend : forall h topic,
             topic_maxLogSize topic = (-2)%Z ->
             sendMessage fuel h topic "a" 1 = None).
  { intros h topic Hk. apply sendMessage_diverges. lia. }
  split.
  - apply Hsend. reflexivity.
  - cbn [run step]. rewrite Hsend by reflexivity. reflexivity.
Qed.

(** X18: on a topic whose [maxLogSize] is [-1] or a bound [k >= 0] (and
    with callbacks that return without calling into the bus), [sendMessage]
    returns; it appends the new message and evicts, then visits the
    subscriptions in registration order: the trace is one invocation, with
    the new message, for each active subscription; an active subscription
    of the topic ends with the id of the new message as its cursor and is
    otherwise as before; an inactive one, and every object that is no
    subscription of the topic, is left as it was. *)
Theorem sendMessage_fans_out (fuel : nat) (h : Heap) (topic : Topic)
    (payload : Payload) (now : Z) :
  valid_maxLogSize topic ->
  enough_fuel fuel topic ->
  exists res,
    sendMessage fuel h topic payload now = Some res
    /\ sd_topic res = spec_sent topic payload now
    /\ sd_calls res
       = spec_fanout h (mkMessage (topic_nextMessageID topic) payload now)
                     (topic_subscriptions topic)
    /\ (forall r s,
          r ∈ topic_subscriptions topic -> h !! r = Some s ->
          sub_active s = true ->
          exists s',
            sd_heap res !! r = Some s'
            /\ sub_lastMessageId s' = Some (topic_nextMessageID topic)
            /\ sub_id s' = sub_id s
            /\ sub_topic s' = sub_topic s
            /\ sub_callback s' = sub_callback s
            /\ sub_active s' = true)
    /\ (forall r s,
          h !! r = Some s -> sub_active s = false ->
          sd_heap res !! r = Some s)
    /\ (forall r, r ∉ topic_subscriptions topic -> sd_heap res !! r = h !! r).
Proof.
  intros Hv Hfuel. eexists. split; [apply sendMessage_returns; assumption|].
  cbn [sd_topic sd_calls sd_heap].
  split; [reflexivity|]. split; [reflexivity|].
  split; [|split].
  - intros r s Hin Hr Ha. eexists. split.
    + rewrite fold_deliver_heap, decide_True by exact Hin.
      rewrite Hr. reflexivity.
    + unfold visited. rewrite Ha.
      cbn [set_lastMessageId sub_lastMessageId sub_id sub_topic sub_callback
           sub_active new_message msg_id].
      repeat split. exact Ha.
  - intros r s Hr Ha. rewrite fold_deliver_heap, Hr. unfold visited. simpl.
    rewrite Ha. destruct (decide (r ∈ topic_subscriptions topic)); reflexivity.
  - intros r Hnin. rewrite fold_deliver_heap, decide_False by exact Hnin.
    reflexivity.
Qed.

Lemma sendMessage_fans_out_witness :
  exists res,
    sendMessage 2 demo_heap demo_topic "c" 102 = Some res
    /\ topic_messages (sd_topic res)
       = [mkMessage 1 "b" 101; mkMessage 2 "c" 102]
    /\ sd_calls res
       = [mkCall 10 (mkMessage 2 "c" 102); mkCall 12 (mkMessage 2 "c" 102)]
    /\ (exists s0, sd_heap res !! 0 = Some s0
                   /\ sub_lastMessageId s0 = Some 2%Z)
    /\ sd_heap res !! 1
       = Some {| sub_id := 1; sub_topic := "news";
                 sub_lastMessageId := Some 0%Z;
                 sub_callback := 11; sub_active := false |}
    /\ (exists s2, sd_heap res !! 2 = Some s2
                   /\ sub_lastMessageId s2 = Some 2%Z).
Proof.
  destruct (sendMessage_fans_out 2 demo_heap demo_topic "c" 102)
    as (res & Hres & Htopic & Hcalls & Hactive & Hinactive & _).
  - unfold valid_maxLogSize. simpl. lia.
  - right. simpl. lia.
  - exists res. split; [exact Hres|].
    split; [rewrite Htopic; reflexivity|]. split; [exact Hcalls|].
    split; [|split].
    + destruct (Hactive 0 {| sub_id := 0; sub_topic := "news";
                             sub_lastMessageId := Some 1%Z;
                             sub_callback := 10; sub_active := true |})
        as (s0 & Hs0 & Hc0 & _); [repeat constructor|reflexivity|reflexivity|].
      exists s0. split; [exact Hs0|exact Hc0].
    + apply Hinactive; reflexivity.
    + destruct (Hactive 2 {| sub_id := 2; sub_topic := "news";
                             sub_lastMessageId := Some 1%Z;
                             sub_callback := 12; sub_active := true |})
        as (s2 & Hs2 & Hc2 & _); [repeat constructor|reflexivity|reflexivity|].
      exists s2. split; [exact Hs2|exact Hc2].
Defined.

(** ** The ids in a log *)

Lemma consecutive_snoc (messages : list Message) (m : Message) (a : Z) :
  consecutive a (messages ++ [m])
  <-> consecutive a messages
      /\ msg_id m = (a + Z.of_nat (length messages))%Z.
Proof.
  revert a. induction messages as [|x messages IH]; intros a; simpl.
  - rewrite Z.add_0_r. tauto.
  - rewrite IH.
    replace (a + 1 + Z.of_nat (length messages))%Z
      with (a + Z.pos (Pos.of_succ_nat (length messages)))%Z by lia.
    tauto.
Qed.

Lemma consecutive_drop (n : nat) (messages : list Message) (a : Z) :
  consecutive a messages ->
  consecutive (a + Z.of_nat n)%Z (drop n messages).
Proof.
  revert messages a. induction n as [|n IH]; intros messages a Hc.
  - rewrite Z.add_0_r. exact Hc.
  - destruct messages as [|x messages]; [exact I|].
    destruct Hc as [_ Hc]. specialize (IH _ _ Hc).
    replace (a + Z.of_nat (S n))%Z with (a + 1 + Z.of_nat n)%Z by lia.
    exact IH.
Qed.

Lemma consecutive_last (messages : list Message) (m : Message) (a : Z) :
  consecutive a messages -> last messages = Some m ->
  msg_id m = (a + Z.of_nat (length messages) - 1)%Z.
Proof.
  intros Hc Hlast. apply last_Some in Hlast as [front ->].
  apply consecutive_snoc in Hc as [_ ->]. rewrite length_app. simpl. lia.
Qed.

Lemma consecutive_lower (messages : list Message) (a : Z) :
  consecutive a messages -> Forall (fun m => (a <= msg_id m)%Z) messages.
Proof.
  revert a. induction messages as [|x messages IH]; intros a Hc.
  - constructor.
  - destruct Hc as [Hx Hc]. constructor; [lia|].
    eapply Forall_impl; [apply IH; exact Hc|]. simpl. intros; lia.
Qed.

Lemma consecutive_ids (messages : list Message) (a : Z) :
  consecutive a messages ->
  map msg_id messages = seqZ a (Z.of_nat (length messages)).
Proof.
  revert a. induction messages as [|x messages IH]; intros a Hc.
  - reflexivity.
  - destruct Hc as [Hx Hc]. cbn [map length].
    rewrite seqZ_cons by lia. rewrite (IH _ Hc), Hx.
    f_equal. f_equal; lia.
Qed.

Lemma spec_evict_length (k : Z) (messages : list Message) :
  (0 <= k)%Z ->
  length (spec_evict k messages) = Nat.min (length messages) (Z.to_nat k).
Proof.
  intros Hk. unfold spec_evict.
  destruct (Z.eqb_spec k (-1)); [lia|]. rewrite length_drop. lia.
Qed.

Lemma spec_evict_unbounded (messages : list Message) :
  spec_evict (-1) messages = messages.
Proof. reflexivity. Qed.

Lemma spec_sent_log_ok (topic : Topic) (payload : Payload) (now : Z) :
  log_ok topic -> log_ok (spec_sent topic payload now).
Proof.
  unfold log_ok. intros Hc.
  cbn [spec_sent topic_messages topic_nextMessageID].
  set (m := new_message topic payload now).
  assert (Hall : consecutive
            (topic_nextMessageID topic - Z.of_nat (length (topic_messages topic)))%Z
            (topic_messages topic ++ [m])).
  { apply consecutive_snoc. split; [exact Hc|]. subst m. simpl. lia. }
  unfold spec_evict. destruct (topic_maxLogSize topic =? -1)%Z.
  - rewrite length_app. simpl.
    replace (topic_nextMessageID topic + 1 -
             Z.of_nat (length (topic_messages topic) + 1))%Z
      with (topic_nextMessageID topic
            - Z.of_nat (length (topic_messages topic)))%Z by lia.
    exact Hall.
  - set (n := length (topic_messages topic ++ [m])
              - Z.to_nat (topic_maxLogSize topic)).
    pose proof (consecutive_drop n _ _ Hall) as Hd.
    rewrite length_drop. fold n.
    assert (Hlen : length (topic_messages topic ++ [m])
                   = length (topic_messages topic) + 1)
      by (rewrite length_app; reflexivity).
    replace (topic_nextMessageID topic + 1
             - Z.of_nat (length (topic_messages topic ++ [m]) - n))%Z
      with (topic_nextMessageID topic
            - Z.of_nat (length (topic_messages topic)) + Z.of_nat n)%Z
      by lia.
    exact Hd.
Qed.

(** ** The log along a sequence of calls *)

Lemma subscribe_log (h : Heap) (topic : Topic)
    (callback : SubscriptionCallback) (options : option SubsciptionOptions) :
  topic_messages (sr_topic (subscribe h topic callback options))
  = topic_messages topic
  /\ topic_nextMessageID (sr_topic (subscribe h topic callback options))
     = topic_nextMessageID topic
  /\ topic_maxLogSize (sr_topic (subscribe h topic callback options))
     = topic_maxLogSize topic.
Proof.
  unfold subscribe.
  destruct (find_subscription h (resolve_id topic options)
              (topic_subscriptions topic)) as [[r s]|]; simpl; tauto.
Qed.

Lemma sends_cons (o : Op) (ops : list Op) :
  sends (o :: ops) = (if is_send o then 1 else 0) + sends ops.
Proof. unfold sends. simpl. destruct (is_send o); reflexivity. Qed.

Lemma run_log (fuel : nat) (ops : list Op) :
  forall w : World,
    runnable fuel (w_topic w) ->
    log_ok (w_topic w) ->
    exists w',
      run fuel ops w = Some w'
      /\ topic_maxLogSize (w_topic w') = topic_maxLogSize (w_topic w)
      /\ topic_nextMessageID (w_topic w')
         = (topic_nextMessageID (w_topic w) + Z.of_nat (sends ops))%Z
      /\ length (topic_messages (w_topic w'))
         = log_length_after (topic_maxLogSize (w_topic w))
             (length (topic_messages (w_topic w))) (sends ops)
      /\ log_ok (w_topic w').
Proof.
  induction ops as [|o ops IH]; intros w Hrun Hlog.
  - exists w. unfold log_length_after, sends. simpl.
    split; [reflexivity|]. split; [reflexivity|]. split; [lia|].
    split; [|exact Hlog].
    destruct Hrun as [->|(Hk & Hlen & _)]; simpl; [lia|].
    destruct (Z.eqb_spec (topic_maxLogSize (w_topic w)) (-1)); lia.
  - rewrite sends_cons. cbn [run].
    destruct o as [callback options|payload now|r]; cbn [step is_send].
    + pose proof (subscribe_log (w_heap w) (w_topic w) callback options)
        as (Hm & Hn & Hk).
      use_IH IH as (w' & Hw' & Hk' & Hn' & Hlen' & Hlog').
      * unfold runnable. cbn [w_topic]. rewrite Hm, Hk. exact Hrun.
      * unfold log_ok. cbn [w_topic]. rewrite Hm, Hn. exact Hlog.
      * exists w'. cbn [w_topic] in *. rewrite Hk', Hn', Hlen', Hm, Hn, Hk.
        split; [exact Hw'|]. split; [reflexivity|]. split; [lia|].
        split; [reflexivity|exact Hlog'].
    + rewrite sendMessage_returns.
      2:{ unfold valid_maxLogSize. destruct Hrun as [->|(Hk & _)]; lia. }
      2:{ destruct Hrun as [Hu|(Hk & Hlen & Hf)]; [left; exact Hu|right; lia]. }
      cbn [sd_heap sd_topic sd_calls].
      use_IH IH as (w' & Hw' & Hk' & Hn' & Hlen' & Hlog').
      * unfold runnable. cbn [w_topic spec_sent topic_maxLogSize topic_messages].
        destruct Hrun as [Hu|(Hk & Hlen & Hf)]; [left; exact Hu|right].
        split; [exact Hk|]. split; [|exact Hf].
        rewrite spec_evict_length by exact Hk. lia.
      * cbn [w_topic]. apply spec_sent_log_ok. exact Hlog.
      * exists w'. split; [exact Hw'|].
        cbn [w_topic spec_sent topic_maxLogSize topic_messages
             topic_nextMessageID] in *.
        rewrite Hk', Hn', Hlen'. split; [reflexivity|]. split; [lia|].
        split; [|exact Hlog'].
        unfold log_length_after.
        destruct Hrun as [Hu|(Hk & Hlen & Hf)].
        -- rewrite Hu, spec_evict_unbounded, length_app.
           change (-1 =? -1)%Z with true. cbn [length]. lia.
        -- destruct (Z.eqb_spec (topic_maxLogSize (w_topic w)) (-1)); [lia|].
           rewrite spec_evict_length by exact Hk. rewrite length_app.
           cbn [length]. lia.
    + use_IH IH as (w' & Hw' & Hk' & Hn' & Hlen' & Hlog').
      * cbn [w_topic]. exact Hrun.
      * cbn [w_topic]. exact Hlog.
      * exists w'. cbn [w_topic] in *. rewrite Hk', Hn', Hlen'.
        split; [exact Hw'|]. split; [reflexivity|]. split; [lia|].
        split; [reflexivity|exact Hlog'].
Qed.

Lemma getTopic_creates (bus : Bus) (name : TopicID) (maxLogSize : option Z) :
  find_topic name (bus_topics bus) = None ->
  (getTopic bus name maxLogSize).2
  = {| topic_name := name;
       topic_messages := [];
       topic_subscriptions := [];
       topic_maxLogSize := maxLogSize_or_default maxLogSize;
       topic_nextMessageID := 0;
       topic_nextSubId := 0 |}.
Proof. unfold getTopic. intros ->. reflexivity. Qed.

(** From an empty log with the counter at zero: after [n] sends the log
    holds the newest ids below [n], as many as the bound lets it keep. *)
Lemma run_from_empty_log (fuel : nat) (ops : list Op) (w : World) :
  topic_messages (w_topic w) = [] ->
  topic_nextMessageID (w_topic w) = 0%Z ->
  runnable fuel (w_topic w) ->
  exists w',
    run fuel ops w = Some w'
    /\ length (topic_messages (w_topic w'))
       = log_length_after (topic_maxLogSize (w_topic w)) 0 (sends ops)
    /\ map msg_id (topic_messages (w_topic w'))
       = seqZ (Z.of_nat (sends ops)
               - Z.of_nat (length (topic_messages (w_topic w'))))
              (Z.of_nat (length (topic_messages (w_topic w')))).
Proof.
  intros Hm Hn Hrun.
  destruct (run_log fuel ops w Hrun) as (w' & Hw' & _ & Hn' & Hlen' & Hlog').
  { unfold log_ok. rewrite Hm. exact I. }
  exists w'. split; [exact Hw'|]. rewrite Hm in Hlen'.
  split; [exact Hlen'|].
  unfold log_ok in Hlog'. rewrite Hn', Hn, Z.add_0_l in Hlog'.
  apply consecutive_ids. exact Hlog'.
Qed.

(** ** The unbounded log *)

(** C6: on a topic created unbounded ([maxLogSize = -1]), after a sequence
    of calls with [n] sends the log has length [n] and its ids are
    [0], ..., [n-1] in increasing order. *)
Theorem unbounded_log_keeps_every_message (bus : Bus) (name : TopicID)
    (maxLogSize : option Z) (fuel : nat) (h : Heap) (ops : list Op) :
  find_topic name (bus_topics bus) = None ->
  topic_maxLogSize (getTopic bus name maxLogSize).2 = (-1)%Z ->
  exists w',
    run fuel ops {| w_heap := h;
                    w_topic := (getTopic bus name maxLogSize).2;
                    w_trace := [] |} = Some w'
    /\ length (topic_messages (w_topic w')) = sends ops
    /\ map msg_id (topic_messages (w_topic w'))
       = seqZ 0 (Z.of_nat (sends ops)).
Proof.
  intros Hfresh Hmax.
  destruct (run_from_empty_log fuel ops
              {| w_heap := h;
                 w_topic := (getTopic bus name maxLogSize).2;
                 w_trace := [] |})
    as (w' & Hw' & Hlen & Hids).
  - cbn [w_topic]. rewrite getTopic_creates by exact Hfresh. reflexivity.
  - cbn [w_topic]. rewrite getTopic_creates by exact Hfresh. reflexivity.
  - left. exact Hmax.
  - cbn [w_topic] in Hlen. rewrite Hmax in Hlen.
    unfold log_length_after in Hlen. change (-1 =? -1)%Z with true in Hlen.
    cbn iota in Hlen. rewrite Nat.add_0_l in Hlen.
    exists w'. split; [exact Hw'|]. split; [exact Hlen|].
    rewrite Hids, Hlen, Z.sub_diag. reflexivity.
Qed.

Lemma unbounded_log_keeps_every_message_witness :
  exists w',
    run 0 (scenario) (fresh_world None) = Some w'
    /\ length (topic_messages (w_topic w')) = 8
    /\ map msg_id (topic_messages (w_topic w')) = [0; 1; 2; 3; 4; 5; 6; 7]%Z.
Proof.
  apply (unbounded_log_keeps_every_message (mkBus []) "testtopic" None 0 []
           scenario); reflexivity.
Defined.

(** ** The bounded log *)

(** On a topic created with a bound [k >= 1], after a sequence of calls
    with [n] sends the log has length [min n k] and holds the [min n k]
    newest ids. *)
Lemma bounded_log_keeps_newest (bus : Bus) (name : TopicID) (k : Z)
    (fuel : nat) (h : Heap) (ops : list Op) :
  find_topic name (bus_topics bus) = None ->
  (1 <= k)%Z ->
  2 <= fuel ->
  exists w',
    run fuel ops {| w_heap := h;
                    w_topic := (getTopic bus name (Some k)).2;
                    w_trace := [] |} = Some w'
    /\ length (topic_messages (w_topic w'))
       = Nat.min (sends ops) (Z.to_nat k)
    /\ map msg_id (topic_messages (w_topic w'))
       = seqZ (Z.of_nat (sends ops - Nat.min (sends ops) (Z.to_nat k)))
              (Z.of_nat (Nat.min (sends ops) (Z.to_nat k))).
Proof.
  intros Hfresh Hk Hfuel.
  assert (Hmax : topic_maxLogSize (getTopic bus name (Some k)).2 = k).
  { rewrite getTopic_creates by exact Hfresh. simpl.
    destruct (Z.eqb_spec k 0); [lia|reflexivity]. }
  destruct (run_from_empty_log fuel ops
              {| w_heap := h;
                 w_topic := (getTopic bus name (Some k)).2;
                 w_trace := [] |})
    as (w' & Hw' & Hlen & Hids).
  - cbn [w_topic]. rewrite getTopic_creates by exact Hfresh. reflexivity.
  - cbn [w_topic]. rewrite getTopic_creates by exact Hfresh. reflexivity.
  - right. cbn [w_topic]. rewrite Hmax.
    rewrite getTopic_creates by exact Hfresh. simpl. lia.
  - cbn [w_topic] in Hlen. rewrite Hmax in Hlen.
    unfold log_length_after in Hlen.
    destruct (Z.eqb_spec k (-1)); [lia|]. rewrite Nat.add_0_l in Hlen.
    exists w'. split; [exact Hw'|]. split; [exact Hlen|].
    rewrite Hids, Hlen. f_equal. lia.
Qed.

(** The second scenario of the test file: bound 5, twenty sends. *)
Example bounded_log_test_scenario :
  exists w',
    run 2 (four_sends ++ four_sends ++ four_sends ++ four_sends ++ four_sends)
        (fresh_world (Some 5%Z)) = Some w'
    /\ length (topic_messages (w_topic w')) = 5
    /\ map msg_id (topic_messages (w_topic w')) = [15; 16; 17; 18; 19]%Z.
Proof.
  apply (bounded_log_keeps_newest (mkBus []) "testtopic" 5 2 []
           (four_sends ++ four_sends ++ four_sends ++ four_sends
            ++ four_sends)); [reflexivity|lia|lia].
Qed.

(** C3, at [maxLogSize = 0]: [getTopic] stores [0 || -1], that is [-1]; the
    topic is unbounded and four sends leave four messages in its log, where
    a bound of zero would leave none. *)
Theorem zero_maxLogSize_keeps_every_message :
  topic_maxLogSize (w_topic (fresh_world (Some 0%Z))) = (-1)%Z
  /\ exists w',
       run 2 four_sends (fresh_world (Some 0%Z)) = Some w'
       /\ map msg_id (topic_messages (w_topic w')) = [0; 1; 2; 3]%Z
       /\ length (topic_messages (w_topic w')) <> Nat.min 4 (Z.to_nat 0).
Proof.
  split; [reflexivity|]. eexists. split; [vm_compute; reflexivity|].
  split; [reflexivity|]. simpl. lia.
Qed.

(** ** The two paths of [subscribe] *)

Lemma find_subscription_Some (h : Heap) (id : SubscriptionID)
    (refs : list Ref) (r : Ref) (s : Subscription) :
  find_subscription h id refs = Some (r, s) ->
  h !! r = Some s /\ sub_id s = id /\ r ∈ refs.
Proof.
  induction refs as [|r' refs IH]; cbn [find_subscription]; [discriminate|].
  destruct (h !! r') as [s'|] eqn:Hr'.
  - destruct (Z.eqb_spec (sub_id s') id) as [Hid|Hid].
    + intros [= <- <-]. split; [exact Hr'|]. split; [exact Hid|].
      apply list_elem_of_here.
    + intros Hf. destruct (IH Hf) as (? & ? & ?).
      split; [assumption|]. split; [assumption|].
      apply list_elem_of_further. assumption.
  - intros Hf. destruct (IH Hf) as (? & ? & ?).
    split; [assumption|]. split; [assumption|].
    apply list_elem_of_further. assumption.
Qed.

Lemma subscribe_update (h : Heap) (topic : Topic)
    (callback : SubscriptionCallback) (options : option SubsciptionOptions)
    (r : Ref) (s : Subscription) :
  find_subscription h (resolve_id topic options) (topic_subscriptions topic)
  = Some (r, s) ->
  subscribe h topic callback options
  = {| sr_heap :=
         <[r := {| sub_id := sub_id s;
                   sub_topic := sub_topic s;
                   sub_callback := callback;
                   sub_lastMessageId := msg_id <$> last (topic_messages topic);
                   sub_active := resolve_startActive options |}]> h;
       sr_topic := topic;
       sr_ref := r;
       sr_calls :=
         resume_calls (resolve_backlogStrategy options)
                      (resolve_startActive options)
                      (topic_messages topic) s callback |}.
Proof. unfold subscribe. intros ->. reflexivity. Qed.

Lemma subscribe_create (h : Heap) (topic : Topic)
    (callback : SubscriptionCallback) (options : option SubsciptionOptions) :
  find_subscription h (resolve_id topic options) (topic_subscriptions topic)
  = None ->
  subscribe h topic callback options
  = {| sr_heap :=
         h ++ [{| sub_id := resolve_id topic options;
                  sub_topic := topic_name topic;
                  sub_callback := callback;
                  sub_lastMessageId := msg_id <$> last (topic_messages topic);
                  sub_active := resolve_startActive options |}];
       sr_topic :=
         {| topic_name := topic_name topic;
            topic_messages := topic_messages topic;
            topic_subscriptions := topic_subscriptions topic ++ [length h];
            topic_maxLogSize := topic_maxLogSize topic;
            topic_nextSubId := (topic_nextSubId topic + 1)%Z;
            topic_nextMessageID := topic_nextMessageID topic |};
       sr_ref := length h;
       sr_calls :=
         fresh_calls (resolve_backlogStrategy options)
                     (topic_messages topic) callback |}.
Proof. unfold subscribe. intros ->. reflexivity. Qed.

Lemma lookup_snoc_new (h : Heap) (s : Subscription) :
  (h ++ [s]) !! length h = Some s.
Proof.
  rewrite lookup_app_r by lia. rewrite Nat.sub_diag. reflexivity.
Qed.



(** C7: a [subscribe] with an id the topic already has returns the address
    of the existing subscription; the topic (its array of subscriptions,
    [nextSubId]) is untouched, no object is added to the heap, no other
    object changes, and the subscription keeps its id and its topic. *)
Theorem resubscribe_updates_in_place (h : Heap) (topic : Topic)
    (callback : SubscriptionCallback) (options : option SubsciptionOptions)
    (r : Ref) (s : Subscription) :
  find_subscription h (resolve_id topic options) (topic_subscriptions topic)
  = Some (r, s) ->
  let res := subscribe h topic callback options in
  sr_ref res = r
  /\ topic_subscriptions (sr_topic res) = topic_subscriptions topic
  /\ topic_nextSubId (sr_topic res) = topic_nextSubId topic
  /\ sr_topic res = topic
  /\ length (sr_heap res) = length h
  /\ (forall r', r' <> r -> sr_heap res !! r' = h !! r')
  /\ exists s',
       sr_heap res !! r = Some s'
       /\ sub_id s' = sub_id s
       /\ sub_topic s' = sub_topic s
       /\ sub_callback s' = callback.
Proof.
  intros Hfind res. subst res. rewrite (subscribe_update _ _ _ _ _ _ Hfind).
  cbn [sr_ref sr_topic sr_heap].
  destruct (find_subscription_Some _ _ _ _ _ Hfind) as (Hr & _ & _).
  split; [reflexivity|]. split; [reflexivity|]. split; [reflexivity|].
  split; [reflexivity|]. split; [apply length_insert|].
  split.
  - intros r' Hne. apply list_lookup_insert_ne. congruence.
  - eexists. split.
    + apply list_lookup_insert_eq. eapply lookup_lt_Some. exact Hr.
    + repeat split.
Qed.

Lemma resubscribe_updates_in_place_witness :
  let res := subscribe demo_heap demo_topic 20 (with_id 1) in
  sr_ref res = 1
  /\ topic_subscriptions (sr_topic res) = [0; 1; 2]
  /\ topic_nextSubId (sr_topic res) = 3%Z.
Proof.
  destruct (resubscribe_updates_in_place demo_heap demo_topic 20 (with_id 1)
              1 {| sub_id := 1; sub_topic := "news";
                   sub_lastMessageId := Some 0%Z;
                   sub_callback := 11; sub_active := false |})
    as (Href & Hsubs & Hnext & _).
  - reflexivity.
  - split; [exact Href|]. split; [exact Hsubs|exact Hnext].
Defined.

(** C2, what the code does instead: with [startActive: false] in the
    options the conditional [options.startActive ? options.startActive :
    true] yields [true], and the subscription returned is active, on the
    creation path and on the update path alike. *)
Theorem startActive_false_is_ignored (h : Heap) (topic : Topic)
    (callback : SubscriptionCallback) (id : option SubscriptionID)
    (strategy : option BacklogStrategy) :
  let options :=
    Some {| opt_id := id; opt_backlogStrategy := strategy;
            opt_startActive := Some false |} in
  let res := subscribe h topic callback options in
  exists s, sr_heap res !! sr_ref res = Some s /\ sub_active s = true.
Proof.
  intros options res. subst res.
  destruct (find_subscription h (resolve_id topic options)
              (topic_subscriptions topic)) as [[r s]|] eqn:Hfind.
  - rewrite (subscribe_update _ _ _ _ _ _ Hfind). cbn [sr_heap sr_ref].
    destruct (find_subscription_Some _ _ _ _ _ Hfind) as (Hr & _ & _).
    eexists. split.
    + apply list_lookup_insert_eq. eapply lookup_lt_Some. exact Hr.
    + reflexivity.
  - rewrite (subscribe_create _ _ _ _ Hfind). cbn [sr_heap sr_ref].
    eexists. split; [apply lookup_snoc_new|reflexivity].
Qed.

(** ** The replay window of the update path *)

Lemma filter_idx_from_above {A : Type} (k i : Z) (l : list A) :
  (k < i)%Z -> filter_idx_from (fun _ idx => (idx >? k)%Z) i l = l.
Proof.
  revert i. induction l as [|x l IH]; intros i Hk; cbn [filter_idx_from].
  - reflexivity.
  - destruct (Z.gtb_spec i k); [|lia]. rewrite IH by lia. reflexivity.
Qed.

Lemma findIndex_from_none {A : Type} (p : A -> bool) (i : Z) (l : list A) :
  Forall (fun x => p x = false) l -> findIndex_from p i l = (-1)%Z.
Proof.
  intros Hall. revert i.
  induction Hall as [|x l Hx _ IH]; intros i; cbn [findIndex_from].
  - reflexivity.
  - rewrite Hx. apply IH.
Qed.

Lemma newer_than_all (c : MessageID) (messages : list Message) :
  Forall (fun m => (c < msg_id m)%Z) messages ->
  newer_than c messages = messages.
Proof.
  unfold newer_than. induction 1 as [|x l Hx _ IH]; simpl; [reflexivity|].
  destruct (Z.ltb_spec c (msg_id x)); [|lia]. rewrite IH. reflexivity.
Qed.

Lemma consecutive_above (c a : Z) (messages : list Message) :
  consecutive a messages -> (c < a)%Z ->
  Forall (fun m => (c < msg_id m)%Z) messages.
Proof.
  intros Hc Hlt. eapply Forall_impl; [apply consecutive_lower; exact Hc|].
  simpl. intros; lia.
Qed.

(** The cursor is the id of a message of the log: the index search finds
    it, and what lies behind it are the messages newer than the cursor. *)
Lemma resume_window_found (c : MessageID) (messages : list Message) :
  forall a i : Z,
    consecutive a messages ->
    (a <= c < a + Z.of_nat (length messages))%Z ->
    let k := findIndex_from (fun m => strict_eq (Some (msg_id m)) (Some c))
                            i messages in
    (i <= k)%Z
    /\ filter_idx_from (fun _ idx => (idx >? k)%Z) i messages
       = newer_than c messages.
Proof.
  induction messages as [|x messages IH]; intros a i Hc Hrange k.
  - simpl in Hrange. lia.
  - destruct Hc as [Hx Hc]. subst k.
    cbn [findIndex_from filter_idx_from strict_eq]. unfold newer_than.
    cbn [List.filter]. rewrite Hx.
    destruct (Z.ltb_spec c a) as [Hlt|_]; [lia|].
    destruct (Z.eqb_spec a c) as [Heq|Hne].
    + split; [lia|]. destruct (Z.gtb_spec i i); [lia|].
      rewrite filter_idx_from_above by lia.
      symmetry. apply newer_than_all.
      apply (consecutive_above c (a + 1)); [exact Hc|lia].
    + destruct (IH (a + 1)%Z (i + 1)%Z Hc) as [Hk Hfilter].
      { cbn [length] in Hrange. lia. }
      cbn [strict_eq] in Hk, Hfilter |- *.
      split; [lia|].
      match goal with
      | |- context [(i >? ?k)%Z] => destruct (Z.gtb_spec i k); [lia|]
      end.
      exact Hfilter.
Qed.

(** The cursor is the id of no message of the log: the index search yields
    [-1] and the whole log is replayed. *)
Lemma resume_window_not_found (c : MessageID) (messages : list Message) :
  Forall (fun m => msg_id m <> c) messages ->
  filter_idx
    (fun _ idx =>
       (idx >? findIndex (fun m => strict_eq (Some (msg_id m)) (Some c))
                         messages)%Z)
    messages
  = messages.
Proof.
  intros Hall. unfold filter_idx, findIndex.
  rewrite findIndex_from_none.
  - apply filter_idx_from_above. lia.
  - eapply Forall_impl; [exact Hall|]. simpl. intros m Hm.
    destruct (Z.eqb_spec (msg_id m) c); [contradiction|reflexivity].
Qed.

(** In a log of consecutive ids, with a cursor below [nextMessageID], the
    index-based window of the source is the set of messages with an id
    above the cursor. *)
Lemma resume_window (c : MessageID) (a : Z) (messages : list Message) :
  consecutive a messages ->
  (c < a + Z.of_nat (length messages))%Z ->
  filter_idx
    (fun _ idx =>
       (idx >? findIndex (fun m => strict_eq (Some (msg_id m)) (Some c))
                         messages)%Z)
    messages
  = newer_than c messages.
Proof.
  intros Hc Hlt. destruct (Z.lt_ge_cases c a) as [Hold|Hin].
  - rewrite resume_window_not_found.
    + symmetry. apply newer_than_all. eapply consecutive_above; eassumption.
    + eapply Forall_impl; [eapply consecutive_above; eassumption|].
      simpl. intros; lia.
  - unfold filter_idx, findIndex.
    apply (resume_window_found c messages a 0 Hc). lia.
Qed.


(** ** Resuming a subscription *)

Lemma resolve_startActive_true (options : option SubsciptionOptions) :
  resolve_startActive options = true.
Proof.
  destruct options as [[i strategy [[]|]]|]; reflexivity.
Qed.

Example unseen_state_reachable :
  run 0 [OpSubscribe 1 None; OpUnsubscribe 0; OpSendMessage "a" 1]
      (fresh_world None)
  = Some {| w_heap := unseen_heap; w_topic := unseen_topic; w_trace := [] |}.
Proof. reflexivity. Qed.

Example behind_state_reachable :
  run 0 [OpSubscribe 1 None; OpSendMessage "a" 1; OpUnsubscribe 0;
         OpSendMessage "b" 2]
      (fresh_world None)
  = Some {| w_heap := behind_heap; w_topic := behind_topic;
            w_trace := [mkCall 1 (mkMessage 0 "a" 1)] |}.
Proof. reflexivity. Qed.

Example evicted_state_reachable :
  run 2 [OpSubscribe 1 None; OpSendMessage "a" 1; OpUnsubscribe 0;
         OpSendMessage "b" 2]
      (fresh_world (Some 1%Z))
  = Some {| w_heap := behind_heap; w_topic := evicted_topic;
            w_trace := [mkCall 1 (mkMessage 0 "a" 1)] |}.
Proof. reflexivity. Qed.

(** With a [null] cursor nothing is replayed, though the one message of the
    log has not been seen. *)
Example null_cursor_no_replay :
  sr_calls (subscribe unseen_heap unseen_topic 1 (with_id 0)) = []
  /\ spec_replay FULL (newer_than_cursor None (topic_messages unseen_topic)) 1
     = [mkCall 1 (mkMessage 0 "a" 1)].
Proof. split; reflexivity. Qed.

(** With the cursor [0] nothing is replayed, though message [1] is newer. *)
Example zero_cursor_no_replay :
  sr_calls (subscribe behind_heap behind_topic 1 (with_id 0)) = []
  /\ spec_replay FULL
       (newer_than_cursor (Some 0%Z) (topic_messages behind_topic)) 1
     = [mkCall 1 (mkMessage 1 "b" 2)].
Proof. split; reflexivity. Qed.




(** On the update path with [full], a non-zero cursor that is the id of no
    message of the log (evicted since it was seen): the index search yields
    [-1] and the whole retained log is replayed, oldest first. *)
Lemma resume_full_after_eviction (h : Heap) (topic : Topic)
    (callback : SubscriptionCallback) (options : option SubsciptionOptions)
    (r : Ref) (s : Subscription) (c : MessageID) :
  find_subscription h (resolve_id topic options) (topic_subscriptions topic)
  = Some (r, s) ->
  resolve_backlogStrategy options = FULL ->
  sub_lastMessageId s = Some c ->
  c <> 0%Z ->
  Forall (fun m => msg_id m <> c) (topic_messages topic) ->
  findIndex (fun m => strict_eq (Some (msg_id m)) (sub_lastMessageId s))
            (topic_messages topic) = (-1)%Z
  /\ sr_calls (subscribe h topic callback options)
     = map (mkCall callback) (topic_messages topic).
Proof.
  intros Hfind Hfull Hc Hnz Hgone. split.
  - rewrite Hc. apply findIndex_from_none.
    eapply Forall_impl; [exact Hgone|]. simpl. intros m Hm.
    destruct (Z.eqb_spec (msg_id m) c); [contradiction|reflexivity].
  - rewrite (subscribe_update _ _ _ _ _ _ Hfind). cbn [sr_calls].
    unfold resume_calls. rewrite Hc, Hfull, resolve_startActive_true.
    destruct (last (topic_messages topic)) as [m|] eqn:Hlast.
    2:{ apply last_None in Hlast. rewrite Hlast.
        rewrite andb_false_r. reflexivity. }
    assert (Hm : msg_id m <> c).
    { apply last_Some in Hlast as [front Hfront]. rewrite Hfront in Hgone.
      apply Forall_app in Hgone as [_ Hgone].
      apply Forall_cons in Hgone as [Hgone _]. exact Hgone. }
    assert (Hguard :
              truthy (Some c)
              && negb (strict_eq (Some c) (msg_id <$> Some m))
              && non_null (Some m) && true = true).
    { simpl. destruct (Z.eqb_spec c 0) as [|_]; [contradiction|].
      destruct (Z.eqb_spec c (msg_id m)) as [|_]; [congruence|].
      reflexivity. }
    rewrite Hguard, resume_window_not_found by exact Hgone.
    reflexivity.
Qed.

Example resume_full_after_eviction_example :
  sr_calls (subscribe gap_heap gap_topic 1 (with_id 0))
  = [mkCall 1 (mkMessage 3 "d" 4); mkCall 1 (mkMessage 4 "e" 5)].
Proof.
  apply (resume_full_after_eviction gap_heap gap_topic 1 (with_id 0) 0
           {| sub_id := 0; sub_topic := "testtopic";
              sub_lastMessageId := Some 1%Z;
              sub_callback := 1; sub_active := false |} 1%Z).
  - reflexivity.
  - reflexivity.
  - reflexivity.
  - lia.
  - repeat constructor; simpl; lia.
Qed.

(** C9, at the cursor [0]: the subscription of [behind_heap] has seen
    message [0], which the topic [evicted_topic] no longer holds; the index
    search yields [-1], yet re-subscribing with [full] replays nothing,
    because the guard [maybeExisting.lastMessageId && ...] takes the id [0]
    for no cursor. *)
Theorem evicted_zero_cursor_is_not_replayed :
  find_subscription behind_heap 0 (topic_subscriptions evicted_topic)
  = Some (0, {| sub_id := 0; sub_topic := "testtopic";
                sub_lastMessageId := Some 0%Z;
                sub_callback := 1; sub_active := false |})
  /\ findIndex (fun m => strict_eq (Some (msg_id m)) (Some 0%Z))
               (topic_messages evicted_topic) = (-1)%Z
  /\ resolve_backlogStrategy (with_id 0) = FULL
  /\ topic_messages evicted_topic = [mkMessage 1 "b" 2]
  /\ sr_calls (subscribe behind_heap evicted_topic 1 (with_id 0)) = [].
Proof. repeat split. Qed.

(** ** Ids and [nextSubId] *)

Lemma same_ids_refl (h : Heap) : same_ids h h.
Proof. intros r. reflexivity. Qed.

Lemma same_ids_trans (h1 h2 h3 : Heap) :
  same_ids h1 h2 -> same_ids h2 h3 -> same_ids h1 h3.
Proof. intros H12 H23 r. rewrite H12. apply H23. Qed.

Lemma same_ids_insert (h : Heap) (r : Ref) (s s' : Subscription) :
  h !! r = Some s -> sub_id s' = sub_id s -> same_ids h (<[r := s']> h).
Proof.
  intros Hr Hid r'. destruct (decide (r = r')) as [<-|Hne].
  - rewrite list_lookup_insert_eq by (eapply lookup_lt_Some; exact Hr).
    rewrite Hr. simpl. congruence.
  - rewrite list_lookup_insert_ne by exact Hne. reflexivity.
Qed.

Lemma same_ids_unsubscribe (h : Heap) (r : Ref) :
  same_ids h (unsubscribe h r).
Proof.
  unfold unsubscribe. destruct (h !! r) as [s|] eqn:Hr.
  - eapply same_ids_insert; [exact Hr|reflexivity].
  - apply same_ids_refl.
Qed.

Lemma same_ids_fold_deliver (message : Message) (refs : list Ref)
    (h : Heap) (tr : list Call) :
  same_ids h (fold_left (deliver message) refs (h, tr)).1.
Proof.
  intros r. rewrite fold_deliver_heap.
  destruct (decide (r ∈ refs)); [|reflexivity].
  destruct (h !! r) as [s|]; [|reflexivity].
  simpl. unfold visited. destruct (sub_active s); reflexivity.
Qed.

Lemma find_subscription_same_ids (h h' : Heap) (id : SubscriptionID)
    (refs : list Ref) (r : Ref) (s : Subscription) :
  same_ids h h' ->
  find_subscription h id refs = Some (r, s) ->
  exists s', find_subscription h' id refs = Some (r, s').
Proof.
  intros Hsame. induction refs as [|r' refs IH]; cbn [find_subscription].
  - discriminate.
  - specialize (Hsame r').
    destruct (h !! r') as [s1|], (h' !! r') as [s2|]; simpl in Hsame;
      try discriminate; [|exact IH].
    injection Hsame as Hid. rewrite <- Hid.
    destruct (sub_id s1 =? id)%Z; [|exact IH].
    intros [= <- <-]. eexists. reflexivity.
Qed.

Lemma resolve_id_without_id (topic : Topic)
    (options : option SubsciptionOptions) :
  without_id options -> resolve_id topic options = topic_nextSubId topic.
Proof.
  destruct options as [[i strategy active]|]; simpl; [|reflexivity].
  intros ->. reflexivity.
Qed.

Lemma runnable_send (fuel : nat) (topic : Topic) (payload : Payload)
    (now : Z) :
  runnable fuel topic ->
  valid_maxLogSize topic
  /\ enough_fuel fuel topic
  /\ runnable fuel (spec_sent topic payload now).
Proof.
  unfold runnable, valid_maxLogSize, enough_fuel.
  cbn [spec_sent topic_maxLogSize topic_messages].
  intros [Hu|(Hk & Hlen & Hfuel)].
  - split; [lia|]. split; left; exact Hu.
  - split; [lia|]. split; [right; lia|]. right.
    split; [exact Hk|]. split; [|exact Hfuel].
    rewrite spec_evict_length by exact Hk. lia.
Qed.

(** While every explicit id that is named exists on the topic, no call
    creates a subscription: the array of subscriptions, [nextSubId] and the
    ids stored at the addresses stay as they are. *)
Lemma run_without_creation (fuel : nat) (h0 : Heap) (subs0 : list Ref)
    (next0 : Z) (r : Ref) (s : Subscription) (ops : list Op) :
  find_subscription h0 next0 subs0 = Some (r, s) ->
  forall w : World,
    same_ids h0 (w_heap w) ->
    topic_subscriptions (w_topic w) = subs0 ->
    topic_nextSubId (w_topic w) = next0 ->
    runnable fuel (w_topic w) ->
    Forall (fun o =>
              match o with
              | OpSubscribe _ (Some {| opt_id := Some i |}) =>
                  is_Some (find_subscription h0 i subs0)
              | _ => True
              end) ops ->
    exists w',
      run fuel ops w = Some w'
      /\ same_ids h0 (w_heap w')
      /\ topic_subscriptions (w_topic w') = subs0
      /\ topic_nextSubId (w_topic w') = next0.
Proof.
  intros Hcollision. induction ops as [|o ops IH];
    intros w Hsame Hsubs Hnext Hrun Hops.
  - exists w. repeat split; assumption.
  - apply Forall_cons in Hops as [Ho Hops]. cbn [run].
    destruct o as [callback options|payload now|r0]; cbn [step].
    + assert (Hfound : exists r1 s1,
                 find_subscription (w_heap w)
                   (resolve_id (w_topic w) options)
                   (topic_subscriptions (w_topic w)) = Some (r1, s1)).
      { rewrite Hsubs.
        destruct options as [[[i|] strategy active]|]; cbn [resolve_id opt_id].
        - destruct Ho as [[r1 s1] Hf].
          destruct (find_subscription_same_ids _ _ _ _ _ _ Hsame Hf)
            as [s1' Hf'].
          eauto.
        - rewrite Hnext.
          destruct (find_subscription_same_ids _ _ _ _ _ _ Hsame Hcollision)
            as [s1' Hf'].
          eauto.
        - rewrite Hnext.
          destruct (find_subscription_same_ids _ _ _ _ _ _ Hsame Hcollision)
            as [s1' Hf'].
          eauto. }
      destruct Hfound as (r1 & s1 & Hf).
      rewrite (subscribe_update _ _ _ _ _ _ Hf). cbn [sr_heap sr_topic sr_calls].
      apply IH; cbn [w_heap w_topic]; try assumption.
      eapply same_ids_trans; [exact Hsame|].
      destruct (find_subscription_Some _ _ _ _ _ Hf) as (Hr1 & _ & _).
      eapply same_ids_insert; [exact Hr1|reflexivity].
    + destruct (runnable_send fuel (w_topic w) payload now Hrun)
        as (Hv & Hfuel & Hrun').
      rewrite sendMessage_returns by assumption.
      cbn [sd_heap sd_topic sd_calls].
      apply IH; cbn [w_heap w_topic]; try assumption.
      eapply same_ids_trans; [exact Hsame|]. apply same_ids_fold_deliver.
    + apply IH; cbn [w_heap w_topic]; try assumption.
      eapply same_ids_trans; [exact Hsame|]. apply same_ids_unsubscribe.
Qed.

Example collision_world_reachable :
  run 0 [OpSubscribe 1 (with_id 1)] (fresh_world None) = Some collision_world.
Proof. reflexivity. Qed.

(** C10 as stated does not hold: in [collision_world] the subscription has
    the id [1] and [nextSubId] is [1]; a [subscribe] with the unused explicit
    id [5] creates a subscription and moves [nextSubId] to [2], and the next
    [subscribe] without an id creates the subscription [2]. *)
Lemma collision_claim_fails_after_explicit_creation :
  ~ collision_claim_as_stated.
Proof.
  intros Hclaim.
  destruct (Hclaim 0 collision_world
              {| w_heap :=
                   w_heap collision_world
                   ++ [ {| sub_id := 5; sub_topic := "testtopic";
                           sub_lastMessageId := None;
                           sub_callback := 2; sub_active := true |} ];
                 w_topic :=
                   {| topic_name := "testtopic";
                      topic_messages := [];
                      topic_subscriptions := [0; 1];
                      topic_maxLogSize := -1;
                      topic_nextSubId := 2;
                      topic_nextMessageID := 0 |};
                 w_trace := [] |}
              0
              {| sub_id := 1; sub_topic := "testtopic";
                 sub_lastMessageId := None;
                 sub_callback := 1; sub_active := true |}
              [OpSubscribe 2 (with_id 5)] 3 None)
    as [Href _]; try reflexivity.
  discriminate Href.
Qed.

(** C10, amended: when a subscription of the topic has the id
    [nextSubId], then along every sequence of calls in which each explicit
    id passed to [subscribe] is one the topic already has (so that nothing
    creates a subscription in between), the array of subscriptions and
    [nextSubId] stay as they are, and every [subscribe] without an explicit
    id resolves to that subscription, takes the update path and leaves
    [nextSubId] and the array unchanged. *)
Theorem implicit_subscribe_stuck_on_collision (fuel : nat) (w : World)
    (r : Ref) (s : Subscription) (ops : list Op) :
  find_subscription (w_heap w) (topic_nextSubId (w_topic w))
                    (topic_subscriptions (w_topic w)) = Some (r, s) ->
  runnable fuel (w_topic w) ->
  Forall (explicit_id_exists w) ops ->
  exists w',
    run fuel ops w = Some w'
    /\ topic_subscriptions (w_topic w') = topic_subscriptions (w_topic w)
    /\ topic_nextSubId (w_topic w') = topic_nextSubId (w_topic w)
    /\ forall (callback : SubscriptionCallback)
              (options : option SubsciptionOptions),
         without_id options ->
         let res := subscribe (w_heap w') (w_topic w') callback options in
         resolve_id (w_topic w') options = sub_id s
         /\ sr_ref res = r
         /\ sr_topic res = w_topic w'.
Proof.
  intros Hcollision Hrun Hops.
  destruct (run_without_creation fuel (w_heap w)
              (topic_subscriptions (w_topic w))
              (topic_nextSubId (w_topic w)) r s ops Hcollision w)
    as (w' & Hw' & Hsame & Hsubs & Hnext);
    [apply same_ids_refl|reflexivity|reflexivity|exact Hrun| |].
  { eapply Forall_impl; [exact Hops|]. intros o Ho.
    destruct o as [callback [[[i|] strategy active]|]| |]; exact Ho. }
  exists w'. split; [exact Hw'|]. split; [exact Hsubs|].
  split; [exact Hnext|].
  intros callback options Himplicit res. subst res.
  destruct (find_subscription_same_ids _ _ _ _ _ _ Hsame Hcollision)
    as [s' Hf'].
  destruct (find_subscription_Some _ _ _ _ _ Hcollision) as (_ & Hid & _).
  rewrite <- Hsubs, <- Hnext in Hf'.
  rewrite <- (resolve_id_without_id _ options Himplicit) in Hf'.
  rewrite (subscribe_update _ _ _ _ _ _ Hf'). cbn [sr_ref sr_topic].
  split; [|split; reflexivity].
  rewrite (resolve_id_without_id _ options Himplicit), Hnext. congruence.
Qed.

Lemma implicit_subscribe_stuck_on_collision_witness :
  exists w',
    run 0 [OpSubscribe 2 None; OpSendMessage "a" 1; OpSubscribe 3 (with_id 1);
           OpUnsubscribe 0; OpSubscribe 4 (with_strategy LATEST)]
        collision_world = Some w'
    /\ topic_subscriptions (w_topic w') = [0]
    /\ topic_nextSubId (w_topic w') = 1%Z.
Proof.
  destruct (implicit_subscribe_stuck_on_collision 0 collision_world 0
              {| sub_id := 1; sub_topic := "testtopic";
                 sub_lastMessageId := None;
                 sub_callback := 1; sub_active := true |}
              [OpSubscribe 2 None; OpSendMessage "a" 1;
               OpSubscribe 3 (with_id 1); OpUnsubscribe 0;
               OpSubscribe 4 (with_strategy LATEST)])
    as (w' & Hw' & Hsubs & Hnext & _).
  - reflexivity.
  - left. reflexivity.
  - repeat constructor. simpl. eexists. reflexivity.
  - exists w'. split; [exact Hw'|]. split; [exact Hsubs|exact Hnext].
Defined.

(** ** Unsubscribing *)

Lemma same_shape_fold_deliver (message : Message) (refs : list Ref)
    (h : Heap) (tr : list Call) :
  same_shape h (fold_left (deliver message) refs (h, tr)).1.
Proof.
  intros r. rewrite fold_deliver_heap.
  destruct (decide (r ∈ refs)); [|reflexivity].
  destruct (h !! r) as [s|]; [|reflexivity].
  simpl. unfold visited. destruct (sub_active s) eqn:Ha; [|reflexivity].
  unfold shape. simpl. rewrite Ha. reflexivity.
Qed.

Lemma spec_fanout_active (h : Heap) (message : Message) (refs : list Ref) :
  Forall (fun c =>
            exists r' s',
              r' ∈ refs /\ h !! r' = Some s' /\ sub_active s' = true
              /\ call_callback c = sub_callback s')
         (spec_fanout h message refs).
Proof.
  induction refs as [|r refs IH]; cbn [spec_fanout]; [constructor|].
  assert (Hrest :
            Forall (fun c =>
                      exists r' s',
                        r' ∈ r :: refs /\ h !! r' = Some s'
                        /\ sub_active s' = true
                        /\ call_callback c = sub_callback s')
                   (spec_fanout h message refs)).
  { eapply Forall_impl; [exact IH|]. simpl.
    intros c (r' & s' & Hin & Hrest). exists r', s'.
    split; [apply list_elem_of_further; exact Hin|exact Hrest]. }
  destruct (h !! r) as [s|] eqn:Hr; [|exact Hrest].
  destruct (sub_active s) eqn:Ha; [|exact Hrest].
  constructor; [|exact Hrest].
  exists r, s. split; [apply list_elem_of_here|]. repeat split; assumption.
Qed.

Lemma unsubscribe_lookup (h : Heap) (r : Ref) (s : Subscription) :
  h !! r = Some s -> unsubscribe h r !! r = Some (set_active s false).
Proof.
  intros Hr. unfold unsubscribe. rewrite Hr.
  apply list_lookup_insert_eq. eapply lookup_lt_Some. exact Hr.
Qed.

Lemma unsubscribe_lookup_ne (h : Heap) (r r' : Ref) :
  r' <> r -> unsubscribe h r !! r' = h !! r'.
Proof.
  intros Hne. unfold unsubscribe. destruct (h !! r); [|reflexivity].
  apply list_lookup_insert_ne. congruence.
Qed.

(** Sends after [unsubscribe]: the subscription at [r] stays exactly as
    [unsubscribe] left it, and every call of the trace is made for another,
    active subscription. *)
Lemma sends_skip_unsubscribed (fuel : nat) (h : Heap) (r : Ref)
    (s : Subscription) (ops : list Op) :
  h !! r = Some s ->
  Forall (fun o => is_send o = true) ops ->
  forall w : World,
    runnable fuel (w_topic w) ->
    same_shape (unsubscribe h r) (w_heap w) ->
    w_heap w !! r = Some (set_active s false) ->
    Forall (called_for_other h (topic_subscriptions (w_topic w)) r)
           (w_trace w) ->
    exists w',
      run fuel ops w = Some w'
      /\ w_heap w' !! r = Some (set_active s false)
      /\ topic_subscriptions (w_topic w') = topic_subscriptions (w_topic w)
      /\ Forall (called_for_other h (topic_subscriptions (w_topic w)) r)
                (w_trace w').
Proof.
  intros Hr Hops. induction Hops as [|o ops Ho _ IH];
    intros w Hrun Hshape Hwr Htrace.
  - exists w. repeat split; assumption.
  - destruct o as [|payload now|]; try discriminate. cbn [run step].
    destruct (runnable_send fuel (w_topic w) payload now Hrun)
      as (Hv & Hfuel & Hrun').
    rewrite sendMessage_returns by assumption.
    cbn [sd_heap sd_topic sd_calls].
    set (m := new_message (w_topic w) payload now).
    use_IH IH as (w' & Hw' & Hwr' & Hsubs' & Htrace').
    + exact Hrun'.
    + cbn [w_heap]. intros r1. rewrite (Hshape r1).
      apply same_shape_fold_deliver.
    + cbn [w_heap]. rewrite fold_deliver_heap, Hwr.
      destruct (decide (r ∈ topic_subscriptions (w_topic w))); reflexivity.
    + cbn [w_trace w_topic spec_sent topic_subscriptions].
      apply Forall_app. split; [exact Htrace|].
      eapply Forall_impl; [apply spec_fanout_active|]. simpl.
      intros c (r' & s' & Hin & Hr' & Ha & Hcb).
      pose proof (Hshape r') as Hs. rewrite Hr' in Hs.
      assert (Hne : r' <> r).
      { intros ->. rewrite Hwr in Hr'. injection Hr' as <-.
        discriminate Ha. }
      rewrite unsubscribe_lookup_ne in Hs by exact Hne.
      destruct (h !! r') as [s0|] eqn:Hr0; [|discriminate Hs].
      injection Hs as Hcb0 Ha0.
      exists r', s0. repeat split; try assumption; congruence.
    + exists w'. split; [exact Hw'|]. split; [exact Hwr'|].
      split; [exact Hsubs'|exact Htrace'].
Qed.

(** C8: [unsubscribe] sets [active] to false on the subscription and
    changes nothing else: id, topic, callback and cursor of the subscription
    are as before, no other object changes, the topic (and with it the array
    of subscriptions) is untouched, no callback is invoked, and a second
    [unsubscribe] changes nothing.  Every [sendMessage] after it leaves the
    subscription as it is, cursor included, and each call it makes is made
    for another, active subscription of the topic. *)
Theorem unsubscribe_only_deactivates (h : Heap) (r : Ref)
    (s : Subscription) :
  h !! r = Some s ->
  (exists s',
     unsubscribe h r !! r = Some s'
     /\ sub_active s' = false
     /\ sub_callback s' = sub_callback s
     /\ sub_lastMessageId s' = sub_lastMessageId s
     /\ sub_id s' = sub_id s
     /\ sub_topic s' = sub_topic s)
  /\ length (unsubscribe h r) = length h
  /\ (forall r', r' <> r -> unsubscribe h r !! r' = h !! r')
  /\ unsubscribe (unsubscribe h r) r = unsubscribe h r
  /\ (forall (fuel : nat) (w : World),
        exists w',
          step fuel w (OpUnsubscribe r) = Some w'
          /\ w_topic w' = w_topic w /\ w_trace w' = w_trace w)
  /\ forall (fuel : nat) (topic : Topic) (ops : list Op),
       runnable fuel topic ->
       Forall (fun o => is_send o = true) ops ->
       exists w',
         run fuel ops {| w_heap := unsubscribe h r;
                         w_topic := topic;
                         w_trace := [] |} = Some w'
         /\ w_heap w' !! r = unsubscribe h r !! r
         /\ topic_subscriptions (w_topic w') = topic_subscriptions topic
         /\ Forall (called_for_other h (topic_subscriptions topic) r)
                   (w_trace w').
Proof.
  intros Hr. pose proof (unsubscribe_lookup h r s Hr) as Hu.
  split; [|split; [|split; [|split; [|split]]]].
  - eexists. split; [exact Hu|]. repeat split.
  - unfold unsubscribe. rewrite Hr. apply length_insert.
  - intros r' Hne. apply unsubscribe_lookup_ne. exact Hne.
  - unfold unsubscribe at 1. rewrite Hu.
    apply list_insert_id. exact Hu.
  - intros fuel w. eexists. split; [reflexivity|]. split; reflexivity.
  - intros fuel topic ops Hrun Hops. rewrite Hu.
    apply (sends_skip_unsubscribed fuel h r s ops Hr Hops
             {| w_heap := unsubscribe h r; w_topic := topic;
                w_trace := [] |}).
    + exact Hrun.
    + intros r'. reflexivity.
    + exact Hu.
    + constructor.
Qed.

Lemma unsubscribe_only_deactivates_witness :
  exists w',
    run 2 [OpSendMessage "c" 102; OpSendMessage "d" 103]
        {| w_heap := unsubscribe demo_heap 0;
           w_topic := demo_topic;
           w_trace := [] |} = Some w'
    /\ w_heap w' !! 0
       = Some {| sub_id := 0; sub_topic := "news";
                 sub_lastMessageId := Some 1%Z;
                 sub_callback := 10; sub_active := false |}
    /\ times_called 10 (w_trace w') = 0.
Proof.
  destruct (unsubscribe_only_deactivates demo_heap 0
              {| sub_id := 0; sub_topic := "news";
                 sub_lastMessageId := Some 1%Z;
                 sub_callback := 10; sub_active := true |} eq_refl)
    as (_ & _ & _ & _ & _ & Hsends).
  destruct (Hsends 2 demo_topic
              [OpSendMessage "c" 102; OpSendMessage "d" 103])
    as (w' & Hw' & Hheap & _ & _).
  - right. simpl. lia.
  - repeat constructor.
  - exists w'. split; [exact Hw'|]. split; [exact Hheap|].
    simpl in Hw'. injection Hw' as <-. reflexivity.
Defined.

(** ** The invariant of the reachable states *)

Lemma shift_while_Some (fuel : nat) (k : Z) :
  forall messages messages' : list Message,
    shift_while fuel k messages = Some messages' ->
    (0 <= k)%Z
    /\ messages' = drop (length messages - Z.to_nat k) messages.
Proof.
  destruct (Z.lt_ge_cases k 0) as [Hneg|Hk].
  - intros messages messages' Hs.
    rewrite shift_while_negative in Hs by exact Hneg. discriminate Hs.
  - induction fuel as [|fuel IH]; intros messages messages'; cbn [shift_while].
    + discriminate.
    + destruct (Z.gtb_spec (Z.of_nat (length messages)) k) as [Hgt|Hle].
      * intros Hs. destruct (IH _ _ Hs) as [_ ->]. split; [exact Hk|].
        destruct messages as [|m messages]; simpl in *; [lia|].
        replace (S (length messages) - Z.to_nat k)
          with (S (length messages - Z.to_nat k)) by lia.
        reflexivity.
      * intros [= <-]. split; [exact Hk|].
        replace (length messages - Z.to_nat k) with 0 by lia. reflexivity.
Qed.

(** Whenever [sendMessage] returns, it returns what the specification
    says. *)
Lemma sendMessage_Some (fuel : nat) (h : Heap) (topic : Topic)
    (payload : Payload) (now : Z) (res : SendResult) :
  sendMessage fuel h topic payload now = Some res ->
  res = {| sd_heap :=
             (fold_left (deliver (new_message topic payload now))
                        (topic_subscriptions topic) (h, [])).1;
           sd_topic := spec_sent topic payload now;
           sd_calls :=
             spec_fanout h (new_message topic payload now)
                         (topic_subscriptions topic) |}.
Proof.
  unfold sendMessage, cleanOldMessages.
  cbn [topic_maxLogSize topic_messages].
  destruct (Z.eqb_spec (topic_maxLogSize topic) (-1)) as [Hu|Hb].
  - intros [= <-]. cbn [topic_subscriptions]. rewrite fold_deliver_calls.
    unfold spec_sent, spec_evict. rewrite Hu. reflexivity.
  - destruct (shift_while fuel (topic_maxLogSize topic)
                (topic_messages topic ++
                 [{| msg_id := topic_nextMessageID topic;
                     msg_payload := payload; msg_timestamp := now |}]))
      as [messages'|] eqn:Hs; [|discriminate].
    apply shift_while_Some in Hs as [_ ->].
    intros [= <-]. cbn [topic_subscriptions set_messages].
    rewrite fold_deliver_calls.
    unfold spec_sent, spec_evict.
    destruct (Z.eqb_spec (topic_maxLogSize topic) (-1)); [contradiction|].
    reflexivity.
Qed.

Lemma newest_below_next (topic : Topic) :
  log_ok topic ->
  match msg_id <$> last (topic_messages topic) with
  | Some c => (c < topic_nextMessageID topic)%Z
  | None => True
  end.
Proof.
  unfold log_ok. intros Hok.
  destruct (last (topic_messages topic)) as [m|] eqn:Hlast; simpl; [|exact I].
  rewrite (consecutive_last _ _ _ Hok Hlast). lia.
Qed.

Lemma subscribe_bus_ok (h : Heap) (topic : Topic)
    (callback : SubscriptionCallback) (options : option SubsciptionOptions) :
  bus_ok h topic ->
  bus_ok (sr_heap (subscribe h topic callback options))
         (sr_topic (subscribe h topic callback options)).
Proof.
  intros [Hlog Hsubs]. pose proof (newest_below_next topic Hlog) as Hnew.
  destruct (find_subscription h (resolve_id topic options)
              (topic_subscriptions topic)) as [[r s]|] eqn:Hfind.
  - rewrite (subscribe_update _ _ _ _ _ _ Hfind). cbn [sr_heap sr_topic].
    destruct (find_subscription_Some _ _ _ _ _ Hfind) as (Hr & _ & _).
    split; [exact Hlog|].
    eapply Forall_impl; [exact Hsubs|]. simpl. intros r' (s' & Hr' & Hc).
    destruct (decide (r = r')) as [<-|Hne].
    + eexists. split.
      * apply list_lookup_insert_eq. eapply lookup_lt_Some. exact Hr.
      * exact Hnew.
    + exists s'. split; [|exact Hc].
      rewrite list_lookup_insert_ne by exact Hne. exact Hr'.
  - rewrite (subscribe_create _ _ _ _ Hfind). cbn [sr_heap sr_topic].
    split; [exact Hlog|]. cbn [topic_subscriptions].
    apply Forall_app. split.
    + eapply Forall_impl; [exact Hsubs|]. simpl. intros r' (s' & Hr' & Hc).
      exists s'. split; [|exact Hc].
      rewrite lookup_app_l by (eapply lookup_lt_Some; exact Hr'). exact Hr'.
    + constructor; [|constructor].
      eexists. split; [apply lookup_snoc_new|]. exact Hnew.
Qed.

Lemma send_bus_ok (h : Heap) (topic : Topic) (payload : Payload) (now : Z) :
  bus_ok h topic ->
  bus_ok (fold_left (deliver (new_message topic payload now))
                    (topic_subscriptions topic) (h, [])).1
         (spec_sent topic payload now).
Proof.
  intros [Hlog Hsubs]. split; [apply spec_sent_log_ok; exact Hlog|].
  cbn [spec_sent topic_subscriptions].
  apply Forall_forall. intros r Hin.
  rewrite Forall_forall in Hsubs. destruct (Hsubs r Hin) as (s & Hr & Hc).
  exists (visited (new_message topic payload now) s). split.
  - rewrite fold_deliver_heap, decide_True by exact Hin. rewrite Hr.
    reflexivity.
  - unfold cursor_ok, visited in *. cbn [spec_sent topic_nextMessageID].
    destruct (sub_active s); simpl; [lia|].
    destruct (sub_lastMessageId s); [lia|exact I].
Qed.

Lemma unsubscribe_bus_ok (h : Heap) (topic : Topic) (r : Ref) :
  bus_ok h topic -> bus_ok (unsubscribe h r) topic.
Proof.
  intros [Hlog Hsubs]. split; [exact Hlog|].
  eapply Forall_impl; [exact Hsubs|]. simpl. intros r' (s' & Hr' & Hc).
  destruct (decide (r' = r)) as [->|Hne].
  - exists (set_active s' false). split; [|exact Hc].
    apply unsubscribe_lookup. exact Hr'.
  - exists s'. split; [|exact Hc].
    rewrite unsubscribe_lookup_ne by exact Hne. exact Hr'.
Qed.

(** Every sequence of calls keeps the invariant. *)
Lemma run_bus_ok (fuel : nat) (ops : list Op) :
  forall w w' : World,
    bus_ok (w_heap w) (w_topic w) ->
    run fuel ops w = Some w' ->
    bus_ok (w_heap w') (w_topic w').
Proof.
  induction ops as [|o ops IH]; intros w w' Hok; cbn [run].
  - intros [= <-]. exact Hok.
  - destruct o as [callback options|payload now|r]; cbn [step].
    + apply IH. cbn [w_heap w_topic]. apply subscribe_bus_ok. exact Hok.
    + destruct (sendMessage fuel (w_heap w) (w_topic w) payload now)
        as [res|] eqn:Hsend; [|discriminate].
      apply sendMessage_Some in Hsend. subst res.
      apply IH. cbn [w_heap w_topic sd_heap sd_topic].
      apply send_bus_ok. exact Hok.
    + apply IH. cbn [w_heap w_topic]. apply unsubscribe_bus_ok. exact Hok.
Qed.

(** A topic that [getTopic] has just created satisfies the invariant, so
    every state the calls reach from it does. *)
Lemma reachable_bus_ok (bus : Bus) (name : TopicID) (maxLogSize : option Z)
    (fuel : nat) (h : Heap) (ops : list Op) (w' : World) :
  find_topic name (bus_topics bus) = None ->
  run fuel ops {| w_heap := h;
                  w_topic := (getTopic bus name maxLogSize).2;
                  w_trace := [] |} = Some w' ->
  bus_ok (w_heap w') (w_topic w').
Proof.
  intros Hfresh. apply run_bus_ok. cbn [w_heap w_topic].
  rewrite getTopic_creates by exact Hfresh.
  split; [exact I|constructor].
Qed.

Lemma bus_ok_found (h : Heap) (topic : Topic) (id : SubscriptionID)
    (r : Ref) (s : Subscription) :
  bus_ok h topic ->
  find_subscription h id (topic_subscriptions topic) = Some (r, s) ->
  log_ok topic /\ cursor_ok topic s.
Proof.
  intros [Hlog Hsubs] Hfind.
  destruct (find_subscription_Some _ _ _ _ _ Hfind) as (Hr & _ & Hin).
  split; [exact Hlog|].
  rewrite Forall_forall in Hsubs. destruct (Hsubs r Hin) as (s' & Hr' & Hc).
  congruence.
Qed.

(** The first subscription of a topic, asked to start inactive, is
    active and receives the next message. *)
Example startActive_false_on_fresh_topic :
  option_map (fun w => (w_heap w, w_trace w))
    (run 0 [OpSubscribe 1 (with_startActive false); OpSendMessage "a" 1]
         (fresh_world None))
  = Some ([ {| sub_id := 0; sub_topic := "testtopic";
               sub_lastMessageId := Some 0%Z;
               sub_callback := 1; sub_active := true |} ],
          [mkCall 1 (mkMessage 0 "a" 1)]).
Proof. reflexivity. Qed.

(** The first scenario of the test file.  The first callback is called
    four times, re-subscribed without effect, unsubscribed, and misses four
    messages; re-subscribing it then replays the four it missed.  The other
    three are subscribed after four messages with [ignore], [latest] and
    [full] (0, 1 and 4 calls) and receive the four later messages. *)
Example test_scenario :
  option_map (fun w => (times_called 1 (w_trace w), times_called 2 (w_trace w),
                        times_called 3 (w_trace w), times_called 4 (w_trace w),
                        length (topic_messages (w_topic w))))
    (run 0 scenario (fresh_world None))
  = Some (4, 4, 5, 8, 8)
  /\ option_map (fun w => times_called 1 (w_trace w))
       (run 0 (scenario ++ [OpSubscribe 1 (with_id 0)]) (fresh_world None))
     = Some 8.
Proof. split; reflexivity. Qed.

(** * Further properties of the code *)

(** ** [getBus] *)

(** X1: where [window] exists, [getBus] hands out one bus: the first call
    stores the address in [window.bus], and a call after it returns the same
    address and changes nothing; the buses that existed before are
    untouched. *)
Theorem getBus_is_singleton_with_window (g : Global) (bus : option nat) :
  g_window g = Some bus ->
  getBus (getBus g).1 = getBus g
  /\ g_window (getBus g).1 = Some (Some (getBus g).2)
  /\ (forall b existing,
        g_buses g !! b = Some existing ->
        g_buses (getBus g).1 !! b = Some existing)
  /\ (bus = None ->
      g_buses (getBus g).1 !! (getBus g).2 = Some (mkBus [])).
Proof.
  intros Hw. unfold getBus. rewrite Hw.
  destruct bus as [b|]; cbn [fst snd g_window g_buses].
  - rewrite Hw. split; [reflexivity|]. split; [reflexivity|].
    split; [intros b0 existing Hb; exact Hb|discriminate].
  - split; [reflexivity|]. split; [reflexivity|]. split.
    + intros b existing Hb. rewrite lookup_app_l; [exact Hb|].
      eapply lookup_lt_Some. exact Hb.
    + intros _. rewrite lookup_app_r by lia. rewrite Nat.sub_diag.
      reflexivity.
Qed.

Lemma getBus_is_singleton_with_window_witness :
  getBus (getBus (mkGlobal [] (Some None))).1
  = getBus (mkGlobal [] (Some None))
  /\ g_window (getBus (mkGlobal [] (Some None))).1 = Some (Some 0).
Proof.
  destruct (getBus_is_singleton_with_window (mkGlobal [] (Some None)) None
              eq_refl) as (Hsame & Hwindow & _).
  split; [exact Hsame|exact Hwindow].
Defined.

(** X2: where [window] does not exist, nothing remembers the bus: every
    call of [getBus] allocates a new, empty bus, two calls in a row return
    different buses, and the buses that existed before are untouched. *)
Theorem getBus_is_fresh_without_window (g : Global) :
  g_window g = None ->
  (getBus g).2 = length (g_buses g)
  /\ (getBus (getBus g).1).2 = S (getBus g).2
  /\ g_buses (getBus (getBus g).1).1 !! (getBus g).2 = Some (mkBus [])
  /\ g_buses (getBus (getBus g).1).1 !! (getBus (getBus g).1).2
     = Some (mkBus [])
  /\ (forall b existing,
        g_buses g !! b = Some existing ->
        g_buses (getBus (getBus g).1).1 !! b = Some existing)
  /\ g_window (getBus (getBus g).1).1 = None.
Proof.
  intros Hw. unfold getBus. rewrite Hw. cbn [fst snd g_window g_buses].
  split; [reflexivity|]. split; [rewrite length_app; simpl; lia|].
  split; [|split; [|split]].
  - rewrite lookup_app_l by (rewrite length_app; simpl; lia).
    rewrite lookup_app_r by lia. rewrite Nat.sub_diag. reflexivity.
  - rewrite lookup_app_r by lia. rewrite Nat.sub_diag. reflexivity.
  - intros b existing Hb.
    pose proof (lookup_lt_Some _ _ _ Hb) as Hlt.
    rewrite lookup_app_l by (rewrite length_app; simpl; lia).
    rewrite lookup_app_l by exact Hlt. exact Hb.
  - reflexivity.
Qed.

Lemma getBus_is_fresh_without_window_witness :
  (getBus (mkGlobal [] None)).2 = 0
  /\ (getBus (getBus (mkGlobal [] None)).1).2 = 1.
Proof.
  destruct (getBus_is_fresh_without_window (mkGlobal [] None) eq_refl)
    as (Hfirst & Hsecond & _).
  split; [exact Hfirst|exact Hsecond].
Defined.

(** ** [getTopic] *)

Lemma find_topic_snoc (name : TopicID) (ts : list Topic) (topic : Topic) :
  find_topic name (ts ++ [topic])
  = match find_topic name ts with
    | Some found => Some found
    | None => if String.eqb (topic_name topic) name then Some topic else None
    end.
Proof.
  induction ts as [|t ts IH]; cbn [find_topic app]; [reflexivity|].
  destruct (String.eqb (topic_name t) name); [reflexivity|exact IH].
Qed.

Lemma find_topic_Some (name : TopicID) (ts : list Topic) (topic : Topic) :
  find_topic name ts = Some topic -> topic_name topic = name /\ topic ∈ ts.
Proof.
  induction ts as [|t ts IH]; cbn [find_topic]; [discriminate|].
  destruct (String.eqb_spec (topic_name t) name) as [Heq|Hne].
  - intros [= <-]. split; [exact Heq|apply list_elem_of_here].
  - intros Hf. destruct (IH Hf) as [Hname Hin].
    split; [exact Hname|apply list_elem_of_further; exact Hin].
Qed.

Lemma find_topic_None (name : TopicID) (ts : list Topic) :
  find_topic name ts = None <-> name ∉ map topic_name ts.
Proof.
  induction ts as [|t ts IH]; cbn [find_topic map].
  - split; [intros _; apply not_elem_of_nil|reflexivity].
  - rewrite not_elem_of_cons.
    destruct (String.eqb_spec (topic_name t) name) as [Heq|Hne].
    + split; [discriminate|]. intros [Hne _]. congruence.
    + rewrite IH. split; [intros Hnin; split; [congruence|exact Hnin]|tauto].
Qed.

(** X3: [getTopic] is idempotent.  Asking for the same name again returns
    the topic of the first call and leaves the bus as the first call left
    it, whatever [maxLogSize] the second call passes: the bound of a topic
    is fixed by the call that created it. *)
Theorem getTopic_twice (bus : Bus) (name : TopicID)
    (maxLogSize maxLogSize' : option Z) :
  getTopic (getTopic bus name maxLogSize).1 name maxLogSize'
  = getTopic bus name maxLogSize.
Proof.
  unfold getTopic at 2 3.
  destruct (find_topic name (bus_topics bus)) as [existing|] eqn:Hfind;
    cbn [fst snd].
  - unfold getTopic. rewrite Hfind. reflexivity.
  - unfold getTopic. cbn [bus_topics]. rewrite find_topic_snoc, Hfind.
    cbn [topic_name]. rewrite String.eqb_refl. reflexivity.
Qed.

(** X4: after [getTopic] the bus holds the returned topic under the name
    asked for; the topics under other names are found as before, and no
    topic is removed or reordered: the old array is a prefix of the new
    one, longer by at most one. *)
Theorem getTopic_registers_topic (bus : Bus) (name : TopicID)
    (maxLogSize : option Z) :
  let res := getTopic bus name maxLogSize in
  find_topic name (bus_topics res.1) = Some res.2
  /\ topic_name res.2 = name
  /\ (forall other, other <> name ->
        find_topic other (bus_topics res.1)
        = find_topic other (bus_topics bus))
  /\ bus_topics bus `prefix_of` bus_topics res.1
  /\ length (bus_topics res.1) <= S (length (bus_topics bus)).
Proof.
  intros res. subst res. unfold getTopic.
  destruct (find_topic name (bus_topics bus)) as [existing|] eqn:Hfind;
    cbn [fst snd bus_topics].
  - destruct (find_topic_Some _ _ _ Hfind) as [Hname _].
    split; [exact Hfind|]. split; [exact Hname|].
    split; [reflexivity|]. split; [reflexivity|lia].
  - split.
    { rewrite find_topic_snoc, Hfind. cbn [topic_name].
      rewrite String.eqb_refl. reflexivity. }
    split; [reflexivity|]. split.
    { intros other Hne. rewrite find_topic_snoc. cbn [topic_name].
      destruct (find_topic other (bus_topics bus)); [reflexivity|].
      destruct (String.eqb_spec name other); [congruence|reflexivity]. }
    split; [apply prefix_app_r; reflexivity|].
    rewrite length_app. simpl. lia.
Qed.

(** X5: [getTopic] keeps the names of a bus distinct: on a bus without two
    topics of one name, the bus it leaves has none either. *)
Theorem getTopic_keeps_names_distinct (bus : Bus) (name : TopicID)
    (maxLogSize : option Z) :
  NoDup (map topic_name (bus_topics bus)) ->
  NoDup (map topic_name (bus_topics (getTopic bus name maxLogSize).1)).
Proof.
  intros Hnodup. unfold getTopic.
  destruct (find_topic name (bus_topics bus)) as [existing|] eqn:Hfind;
    cbn [fst bus_topics]; [exact Hnodup|].
  rewrite map_app. cbn [map topic_name].
  apply NoDup_app. split; [exact Hnodup|]. split.
  - intros x Hx Hx'. apply list_elem_of_singleton in Hx'. subst x.
    apply find_topic_None in Hfind. contradiction.
  - apply NoDup_singleton.
Qed.

Lemma getTopic_keeps_names_distinct_witness :
  NoDup (map topic_name
           (bus_topics (getTopic (mkBus [demo_topic]) "sport" (Some 3%Z)).1)).
Proof.
  apply getTopic_keeps_names_distinct. simpl. apply NoDup_singleton.
Defined.

(** ** [cleanOldMessages] *)

(** X6: a topic created with a [maxLogSize] below [-1] cannot be sent to:
    the loop of [cleanOldMessages] shifts the empty array for ever, so
    [sendMessage] never returns, with whatever fuel, and a sequence of calls
    does not get past its first [sendMessage]. *)
Theorem getTopic_below_minus_one_hangs (bus : Bus) (name : TopicID) (k : Z)
    (fuel : nat) (h : Heap) (payload : Payload) (now : Z)
    (before after : list Op) :
  find_topic name (bus_topics bus) = None ->
  (k < -1)%Z ->
  sendMessage fuel h (getTopic bus name (Some k)).2 payload now = None
  /\ (Forall (fun o => is_send o = false) before ->
      run fuel (before ++ OpSendMessage payload now :: after)
          (created_world bus name (Some k) h) = None).
Proof.
  intros Hfresh Hk.
  assert (Hmax : forall w : World,
             topic_maxLogSize (w_topic w) = k ->
             forall ops, Forall (fun o => is_send o = false) ops ->
             run fuel (ops ++ OpSendMessage payload now :: after) w = None).
  { intros w Hw ops Hops. revert w Hw.
    induction Hops as [|o ops Ho _ IH]; intros w Hw.
    - cbn [app run step]. rewrite sendMessage_diverges by lia. reflexivity.
    - destruct o as [callback options|p n|r]; [|discriminate Ho|];
        cbn [app run step]; apply IH; cbn [w_topic]; [|exact Hw].
      destruct (subscribe_log (w_heap w) (w_topic w) callback options)
        as (_ & _ & ->). exact Hw. }
  assert (Hcreated : topic_maxLogSize (getTopic bus name (Some k)).2 = k).
  { rewrite getTopic_creates by exact Hfresh. simpl.
    destruct (Z.eqb_spec k 0); [lia|reflexivity]. }
  split.
  - apply sendMessage_diverges. lia.
  - intros Hbefore. apply Hmax; [exact Hcreated|exact Hbefore].
Qed.

Lemma getTopic_below_minus_one_hangs_witness :
  sendMessage 1000 [] (getTopic (mkBus []) "testtopic" (Some (-2)%Z)).2
              "a" 1 = None.
Proof.
  apply (getTopic_below_minus_one_hangs (mkBus []) "testtopic" (-2)%Z 1000 []
           "a" 1%Z [] []); [reflexivity|lia].
Defined.

(** X7: on a topic with a bound [k >= 0], [cleanOldMessages] returns after
    [length - k] shifts; it keeps the newest [min length k] messages, in
    their order and as they are, and touches nothing else of the topic.  A
    log within the bound is left as it is.  With the bound [-1] the topic is
    returned as it is without entering the loop. *)
Theorem cleanOldMessages_keeps_newest (fuel : nat) (topic : Topic) :
  ((0 <= topic_maxLogSize topic)%Z ->
   length (topic_messages topic) - Z.to_nat (topic_maxLogSize topic) < fuel ->
   exists cleaned,
     cleanOldMessages fuel topic = Some cleaned
     /\ topic_messages cleaned
        = drop (length (topic_messages topic)
                - Z.to_nat (topic_maxLogSize topic))
               (topic_messages topic)
     /\ topic_messages cleaned `suffix_of` topic_messages topic
     /\ length (topic_messages cleaned)
        = Nat.min (length (topic_messages topic))
                  (Z.to_nat (topic_maxLogSize topic))
     /\ cleaned = set_messages topic (topic_messages cleaned)
     /\ (length (topic_messages topic) <= Z.to_nat (topic_maxLogSize topic) ->
         cleaned = topic))
  /\ (topic_maxLogSize topic = (-1)%Z -> cleanOldMessages fuel topic = Some topic).
Proof.
  split.
  - intros Hk Hfuel. eexists. split.
    { apply cleanOldMessages_returns; [unfold valid_maxLogSize; lia|].
      right. exact Hfuel. }
    cbn [set_messages topic_messages]. unfold spec_evict.
    destruct (Z.eqb_spec (topic_maxLogSize topic) (-1)); [lia|].
    split; [reflexivity|]. split; [apply suffix_drop|].
    split; [rewrite length_drop; lia|]. split; [reflexivity|].
    intros Hlen.
    replace (length (topic_messages topic)
             - Z.to_nat (topic_maxLogSize topic)) with 0 by lia.
    destruct topic; reflexivity.
  - intros Hu. unfold cleanOldMessages. rewrite Hu. reflexivity.
Qed.

Lemma cleanOldMessages_keeps_newest_witness :
  exists cleaned,
    cleanOldMessages 3 (set_messages later_topic
                          (mkMessage 0 "a" 100 :: topic_messages later_topic))
    = Some cleaned
    /\ topic_messages cleaned = topic_messages later_topic.
Proof.
  destruct (proj1 (cleanOldMessages_keeps_newest 3
                     (set_messages later_topic
                        (mkMessage 0 "a" 100 :: topic_messages later_topic))))
    as (cleaned & Hc & Hm & _).
  - simpl. lia.
  - simpl. lia.
  - exists cleaned. split; [exact Hc|exact Hm].
Defined.

(** ** The log and what was sent *)

Lemma spec_evict_evict (k : Z) (older newer : list Message) :
  spec_evict k (spec_evict k older ++ newer) = spec_evict k (older ++ newer).
Proof.
  unfold spec_evict. destruct (k =? -1)%Z; [reflexivity|].
  set (a := length older - Z.to_nat k).
  assert (Ha : a <= length older) by (subst a; lia).
  rewrite <- (drop_app_le older newer a Ha), drop_drop.
  rewrite length_drop, !length_app. f_equal. subst a. lia.
Qed.

(** The log after a sequence of calls: the old log and the messages sent,
    cut down to the bound. *)
Lemma run_log_content (fuel : nat) (ops : list Op) :
  forall w : World,
    runnable fuel (w_topic w) ->
    exists w',
      run fuel ops w = Some w'
      /\ topic_messages (w_topic w')
         = spec_evict (topic_maxLogSize (w_topic w))
             (topic_messages (w_topic w)
              ++ sent_from (topic_nextMessageID (w_topic w)) ops).
Proof.
  induction ops as [|o ops IH]; intros w Hrun.
  - exists w. split; [reflexivity|]. cbn [sent_from]. rewrite app_nil_r.
    unfold spec_evict.
    destruct Hrun as [->|(Hk & Hlen & _)]; [reflexivity|].
    destruct (topic_maxLogSize (w_topic w) =? -1)%Z; [reflexivity|].
    replace (length (topic_messages (w_topic w))
             - Z.to_nat (topic_maxLogSize (w_topic w))) with 0 by lia.
    reflexivity.
  - cbn [run]. destruct o as [callback options|payload now|r];
      cbn [step sent_from].
    + destruct (subscribe_log (w_heap w) (w_topic w) callback options)
        as (Hm & Hn & Hk).
      use_IH IH as (w' & Hw' & Hlog).
      * unfold runnable. cbn [w_topic]. rewrite Hm, Hk. exact Hrun.
      * exists w'. split; [exact Hw'|]. cbn [w_topic] in Hlog.
        rewrite Hlog, Hm, Hn, Hk. reflexivity.
    + destruct (runnable_send fuel (w_topic w) payload now Hrun)
        as (Hv & Hfuel & Hrun').
      rewrite sendMessage_returns by assumption.
      cbn [sd_heap sd_topic sd_calls].
      use_IH IH as (w' & Hw' & Hlog); [exact Hrun'|].
      exists w'. split; [exact Hw'|].
      cbn [w_topic spec_sent topic_messages topic_maxLogSize
           topic_nextMessageID] in Hlog.
      rewrite Hlog, spec_evict_evict, <- app_assoc. reflexivity.
    + use_IH IH as (w' & Hw' & Hlog); [exact Hrun|].
      exists w'. split; [exact Hw'|exact Hlog].
Qed.

(** X8: on a topic that [getTopic] created with the bound [-1] or a bound
    [k >= 1], after any sequence of calls the log holds exactly the messages
    that were sent, in the order of the sends, each with the payload and the
    time of its send and with its position among the sends as id; a bounded
    log holds the newest [k] of them. *)
Theorem log_holds_what_was_sent (bus : Bus) (name : TopicID)
    (maxLogSize : option Z) (fuel : nat) (h : Heap) (ops : list Op) :
  find_topic name (bus_topics bus) = None ->
  (-1 <= maxLogSize_or_default maxLogSize)%Z ->
  2 <= fuel ->
  exists w',
    run fuel ops (created_world bus name maxLogSize h) = Some w'
    /\ topic_messages (w_topic w')
       = spec_evict (maxLogSize_or_default maxLogSize) (sent_from 0 ops).
Proof.
  intros Hfresh Hk Hfuel.
  destruct (run_log_content fuel ops (created_world bus name maxLogSize h))
    as (w' & Hw' & Hlog).
  - unfold runnable, created_world. cbn [w_topic].
    rewrite getTopic_creates by exact Hfresh.
    cbn [topic_maxLogSize topic_messages length].
    destruct (Z.eq_dec (maxLogSize_or_default maxLogSize) (-1)%Z);
      [left; assumption|right; lia].
  - exists w'. split; [exact Hw'|]. rewrite Hlog.
    unfold created_world. cbn [w_topic].
    rewrite getTopic_creates by exact Hfresh. reflexivity.
Qed.

Lemma log_holds_what_was_sent_witness :
  exists w',
    run 2 (scenario) (created_world (mkBus []) "testtopic" (Some 3%Z) [])
    = Some w'
    /\ topic_messages (w_topic w')
       = [mkMessage 5 "two" 2; mkMessage 6 "three" 3;
          mkMessage 7 "some message" 4].
Proof.
  apply (log_holds_what_was_sent (mkBus []) "testtopic" (Some 3%Z) 2 []
           scenario); [reflexivity|simpl; lia|lia].
Defined.

(** ** The states the calls reach *)

Lemma maxLogSize_or_default_not_zero (maxLogSize : option Z) :
  maxLogSize_or_default maxLogSize <> 0%Z.
Proof.
  destruct maxLogSize as [k|]; simpl; [|discriminate].
  destruct (Z.eqb_spec k 0); [discriminate|assumption].
Qed.

Lemma newest_not_negative (topic : Topic) (c : MessageID) :
  log_ok topic ->
  (Z.of_nat (length (topic_messages topic)) <= topic_nextMessageID topic)%Z ->
  msg_id <$> last (topic_messages topic) = Some c ->
  (0 <= c)%Z.
Proof.
  unfold log_ok. intros Hlog Hlen Hnew.
  destruct (last (topic_messages topic)) as [m|] eqn:Hlast; [|discriminate].
  injection Hnew as <-.
  rewrite (consecutive_last _ _ _ Hlog Hlast).
  apply last_Some in Hlast as [front Hfront].
  rewrite Hfront, length_app in Hlen |- *. cbn [length] in Hlen |- *. lia.
Qed.

Lemma spec_evict_shorter (k : Z) (messages : list Message) :
  length (spec_evict k messages) <= length messages.
Proof.
  unfold spec_evict. destruct (k =? -1)%Z; [lia|].
  rewrite length_drop. lia.
Qed.

Lemma subscribe_ids_not_negative (h : Heap) (topic : Topic)
    (callback : SubscriptionCallback) (options : option SubsciptionOptions) :
  log_ok topic ->
  ids_not_negative h topic ->
  ids_not_negative (sr_heap (subscribe h topic callback options))
                   (sr_topic (subscribe h topic callback options)).
Proof.
  intros Hlog [Hlen Hsubs].
  pose proof (fun c => newest_not_negative topic c Hlog Hlen) as Hnew.
  destruct (find_subscription h (resolve_id topic options)
              (topic_subscriptions topic)) as [[r s0]|] eqn:Hfind.
  - rewrite (subscribe_update _ _ _ _ _ _ Hfind). cbn [sr_heap sr_topic].
    destruct (find_subscription_Some _ _ _ _ _ Hfind) as (Hr & _ & _).
    split; [exact Hlen|].
    eapply Forall_impl; [exact Hsubs|]. cbn beta. intros r' Hr' s c Hs Hc.
    destruct (decide (r = r')) as [<-|Hne].
    + rewrite list_lookup_insert_eq in Hs
        by (eapply lookup_lt_Some; exact Hr).
      injection Hs as <-. apply Hnew. exact Hc.
    + rewrite list_lookup_insert_ne in Hs by exact Hne.
      exact (Hr' s c Hs Hc).
  - rewrite (subscribe_create _ _ _ _ Hfind).
    cbn [sr_heap sr_topic].
    split; [exact Hlen|]. cbn [topic_subscriptions].
    assert (Hlookup : forall r' s c,
               (h ++ [{| sub_id := resolve_id topic options;
                         sub_topic := topic_name topic;
                         sub_lastMessageId :=
                           msg_id <$> last (topic_messages topic);
                         sub_callback := callback;
                         sub_active := resolve_startActive options |}])
               !! r' = Some s ->
               sub_lastMessageId s = Some c ->
               h !! r' = Some s \/ (0 <= c)%Z).
    { intros r' s c. rewrite lookup_app.
      destruct (h !! r') as [s'|]; [intros [= <-] _; left; reflexivity|].
      destruct (r' - length h) as [|n]; [|discriminate].
      intros [= <-] Hc. right. apply Hnew. exact Hc. }
    apply Forall_app. split.
    + eapply Forall_impl; [exact Hsubs|]. cbn beta. intros r' Hr' s c Hs Hc.
      destruct (Hlookup r' s c Hs Hc) as [Hold|Hge];
        [exact (Hr' s c Hold Hc)|exact Hge].
    + constructor; [|constructor]. intros s c Hs Hc.
      destruct (Hlookup _ s c Hs Hc) as [Hold|Hge]; [|exact Hge].
      apply lookup_lt_Some in Hold. lia.
Qed.

Lemma send_ids_not_negative (h : Heap) (topic : Topic) (payload : Payload)
    (now : Z) :
  ids_not_negative h topic ->
  ids_not_negative (fold_left (deliver (new_message topic payload now))
                              (topic_subscriptions topic) (h, [])).1
                   (spec_sent topic payload now).
Proof.
  intros [Hlen Hsubs]. split.
  - cbn [spec_sent topic_messages topic_nextMessageID].
    pose proof (spec_evict_shorter (topic_maxLogSize topic)
                  (topic_messages topic ++ [new_message topic payload now]))
      as Hshort.
    rewrite length_app in Hshort. cbn [length] in Hshort. lia.
  - cbn [spec_sent topic_subscriptions].
    apply Forall_forall. intros r Hin s c Hs Hc.
    rewrite Forall_forall in Hsubs.
    rewrite fold_deliver_heap, decide_True in Hs by exact Hin.
    destruct (h !! r) as [s0|] eqn:Hr; [|discriminate]. injection Hs as <-.
    unfold visited in Hc. destruct (sub_active s0).
    + cbn [set_lastMessageId sub_lastMessageId new_message msg_id] in Hc.
      injection Hc as <-. lia.
    + exact (Hsubs r Hin s0 c Hr Hc).
Qed.

Lemma unsubscribe_ids_not_negative (h : Heap) (topic : Topic) (r : Ref) :
  ids_not_negative h topic -> ids_not_negative (unsubscribe h r) topic.
Proof.
  intros [Hlen Hsubs]. split; [exact Hlen|].
  eapply Forall_impl; [exact Hsubs|]. cbn beta. intros r' Hr' s c Hs Hc.
  destruct (decide (r' = r)) as [->|Hne].
  - destruct (h !! r) as [s0|] eqn:Hr.
    + rewrite (unsubscribe_lookup _ _ _ Hr) in Hs. injection Hs as <-.
      exact (Hr' s0 c eq_refl Hc).
    + unfold unsubscribe in Hs. rewrite Hr in Hs. congruence.
  - rewrite unsubscribe_lookup_ne in Hs by exact Hne. exact (Hr' s c Hs Hc).
Qed.

(** Along a sequence of calls: the invariant of the reachable states, ids
    that are not negative, and [nextMessageID] counting the sends. *)
Lemma run_ids_not_negative (fuel : nat) (ops : list Op) :
  forall w w' : World,
    bus_ok (w_heap w) (w_topic w) ->
    ids_not_negative (w_heap w) (w_topic w) ->
    run fuel ops w = Some w' ->
    bus_ok (w_heap w') (w_topic w')
    /\ ids_not_negative (w_heap w') (w_topic w')
    /\ topic_nextMessageID (w_topic w')
       = (topic_nextMessageID (w_topic w) + Z.of_nat (sends ops))%Z.
Proof.
  induction ops as [|o ops IH]; intros w w' Hok Hnn; cbn [run].
  - intros [= <-]. unfold sends. simpl. rewrite Z.add_0_r.
    split; [exact Hok|]. split; [exact Hnn|reflexivity].
  - rewrite sends_cons.
    destruct o as [callback options|payload now|r]; cbn [step is_send].
    + intros Hrun. apply IH in Hrun; cbn [w_heap w_topic].
      * destruct Hrun as (Hok' & Hnn' & Hnext'). cbn [w_topic] in Hnext'.
        destruct (subscribe_log (w_heap w) (w_topic w) callback options)
          as (_ & Hn & _).
        split; [exact Hok'|]. split; [exact Hnn'|]. rewrite Hnext', Hn. lia.
      * apply subscribe_bus_ok. exact Hok.
      * apply subscribe_ids_not_negative; [exact (proj1 Hok)|exact Hnn].
    + destruct (sendMessage fuel (w_heap w) (w_topic w) payload now)
        as [res|] eqn:Hsend; [|discriminate].
      apply sendMessage_Some in Hsend. subst res.
      cbn [sd_heap sd_topic sd_calls]. intros Hrun.
      apply IH in Hrun; cbn [w_heap w_topic].
      * destruct Hrun as (Hok' & Hnn' & Hnext').
        cbn [w_topic spec_sent topic_nextMessageID] in Hnext'.
        split; [exact Hok'|]. split; [exact Hnn'|]. rewrite Hnext'. lia.
      * apply send_bus_ok. exact Hok.
      * apply send_ids_not_negative. exact Hnn.
    + intros Hrun. apply IH in Hrun; cbn [w_heap w_topic].
      * destruct Hrun as (Hok' & Hnn' & Hnext'). cbn [w_topic] in Hnext'.
        split; [exact Hok'|]. split; [exact Hnn'|]. rewrite Hnext'. lia.
      * apply unsubscribe_bus_ok. exact Hok.
      * apply unsubscribe_ids_not_negative. exact Hnn.
Qed.

(** X9: in every state reached from a topic that [getTopic] created,
    through calls whose callbacks return without calling into the bus:
    [nextMessageID] is the number of messages sent so far (the messages sent
    have the ids [0], ..., [nextMessageID - 1]); the ids of the log are
    consecutive, not negative, and end just below [nextMessageID] (no gap,
    no repetition, oldest first); every subscription of the topic has a
    cursor that is [null] or an id [c] with [0 <= c < nextMessageID], the id
    of a message sent before. *)
Theorem reachable_log_and_cursors (bus : Bus) (name : TopicID)
    (maxLogSize : option Z) (fuel : nat) (h : Heap) (ops : list Op)
    (w' : World) :
  find_topic name (bus_topics bus) = None ->
  run fuel ops (created_world bus name maxLogSize h) = Some w' ->
  topic_nextMessageID (w_topic w') = Z.of_nat (sends ops)
  /\ map msg_id (topic_messages (w_topic w'))
     = seqZ (Z.of_nat (sends ops)
             - Z.of_nat (length (topic_messages (w_topic w'))))
            (Z.of_nat (length (topic_messages (w_topic w'))))
  /\ length (topic_messages (w_topic w')) <= sends ops
  /\ forall r, r ∈ topic_subscriptions (w_topic w') ->
       exists s,
         w_heap w' !! r = Some s
         /\ match sub_lastMessageId s with
            | Some c => (0 <= c < Z.of_nat (sends ops))%Z
            | None => True
            end.
Proof.
  intros Hfresh Hrun.
  destruct (run_ids_not_negative fuel ops
              (created_world bus name maxLogSize h) w')
    as ([Hlog Hsubs] & [Hlen Hnn] & Hnext); [| |exact Hrun|].
  { unfold created_world. cbn [w_heap w_topic].
    rewrite getTopic_creates by exact Hfresh. split; [exact I|constructor]. }
  { unfold created_world. cbn [w_heap w_topic].
    rewrite getTopic_creates by exact Hfresh.
    split; [simpl; lia|constructor]. }
  assert (Hn : topic_nextMessageID (w_topic w') = Z.of_nat (sends ops)).
  { rewrite Hnext. unfold created_world. cbn [w_topic].
    rewrite getTopic_creates by exact Hfresh. reflexivity. }
  split; [exact Hn|]. split; [|split].
  - rewrite <- Hn. apply consecutive_ids. exact Hlog.
  - lia.
  - intros r Hin. rewrite Forall_forall in Hsubs, Hnn.
    destruct (Hsubs r Hin) as (s & Hs & Hc). exists s. split; [exact Hs|].
    unfold cursor_ok in Hc.
    destruct (sub_lastMessageId s) as [c|] eqn:Hcur; [|exact I].
    split; [exact (Hnn r Hin s c Hs Hcur)|lia].
Qed.

Lemma reachable_log_and_cursors_witness :
  exists w',
    run 2 scenario (created_world (mkBus []) "testtopic" (Some 3%Z) [])
    = Some w'
    /\ topic_nextMessageID (w_topic w') = 8%Z
    /\ map msg_id (topic_messages (w_topic w')) = [5; 6; 7]%Z
    /\ map sub_lastMessageId (w_heap w')
       = [Some 3; Some 7; Some 7; Some 7]%Z.
Proof.
  eexists. split; [vm_compute; reflexivity|].
  match goal with
  | |- topic_nextMessageID (w_topic ?w) = _ /\ _ =>
      destruct (reachable_log_and_cursors (mkBus []) "testtopic"
                  (Some 3%Z) 2 [] scenario w eq_refl)
        as (Hnext & Hids & _); [vm_compute; reflexivity|]
  end.
  split; [exact Hnext|]. split; [exact Hids|reflexivity].
Defined.

Lemma strict_eq_refl (a : option MessageID) : strict_eq a a = true.
Proof. destruct a as [x|]; simpl; [apply Z.eqb_refl|reflexivity]. Qed.

Lemma last_spec_evict_snoc (k : Z) (messages : list Message) (m : Message) :
  k = (-1)%Z \/ (1 <= k)%Z ->
  last (spec_evict k (messages ++ [m])) = Some m.
Proof.
  intros Hk. unfold spec_evict.
  destruct (Z.eqb_spec k (-1)); [apply last_snoc|].
  rewrite length_app. cbn [length].
  rewrite drop_app_le by lia. apply last_snoc.
Qed.

Lemma sendMessage_Some_valid (fuel : nat) (h : Heap) (topic : Topic)
    (payload : Payload) (now : Z) (res : SendResult) :
  sendMessage fuel h topic payload now = Some res ->
  (-1 <= topic_maxLogSize topic)%Z.
Proof.
  intros Hsend. destruct (Z.lt_ge_cases (topic_maxLogSize topic) (-1)); [|lia].
  rewrite sendMessage_diverges in Hsend by assumption. discriminate Hsend.
Qed.

Lemma subscribe_up_to_date (h : Heap) (topic : Topic)
    (callback : SubscriptionCallback) (options : option SubsciptionOptions) :
  up_to_date h topic ->
  up_to_date (sr_heap (subscribe h topic callback options))
             (sr_topic (subscribe h topic callback options)).
Proof.
  unfold up_to_date. intros Hup.
  destruct (find_subscription h (resolve_id topic options)
              (topic_subscriptions topic)) as [[r s0]|] eqn:Hfind.
  - rewrite (subscribe_update _ _ _ _ _ _ Hfind). cbn [sr_heap sr_topic].
    destruct (find_subscription_Some _ _ _ _ _ Hfind) as (Hr & _ & _).
    eapply Forall_impl; [exact Hup|]. cbn beta. intros r' Hr' s Hs Ha.
    destruct (decide (r = r')) as [<-|Hne].
    + rewrite list_lookup_insert_eq in Hs
        by (eapply lookup_lt_Some; exact Hr).
      injection Hs as <-. reflexivity.
    + rewrite list_lookup_insert_ne in Hs by exact Hne. exact (Hr' s Hs Ha).
  - rewrite (subscribe_create _ _ _ _ Hfind).
    cbn [sr_heap sr_topic topic_subscriptions topic_messages].
    assert (Hnew : forall r' s,
               (h ++ [{| sub_id := resolve_id topic options;
                         sub_topic := topic_name topic;
                         sub_lastMessageId :=
                           msg_id <$> last (topic_messages topic);
                         sub_callback := callback;
                         sub_active := resolve_startActive options |}])
               !! r' = Some s ->
               h !! r' = Some s
               \/ sub_lastMessageId s
                  = msg_id <$> last (topic_messages topic)).
    { intros r' s. rewrite lookup_app.
      destruct (h !! r') as [s'|]; [intros [= <-]; left; reflexivity|].
      destruct (r' - length h) as [|n]; [|discriminate].
      intros [= <-]. right. reflexivity. }
    apply Forall_app. split.
    + eapply Forall_impl; [exact Hup|]. cbn beta. intros r' Hr' s Hs Ha.
      destruct (Hnew r' s Hs) as [Hold|Hcur]; [exact (Hr' s Hold Ha)|exact Hcur].
    + constructor; [|constructor]. intros s Hs Ha.
      rewrite lookup_snoc_new in Hs. injection Hs as <-. reflexivity.
Qed.

Lemma send_up_to_date (h : Heap) (topic : Topic) (payload : Payload)
    (now : Z) :
  topic_maxLogSize topic = (-1)%Z \/ (1 <= topic_maxLogSize topic)%Z ->
  up_to_date (fold_left (deliver (new_message topic payload now))
                        (topic_subscriptions topic) (h, [])).1
             (spec_sent topic payload now).
Proof.
  intros Hk. unfold up_to_date.
  cbn [spec_sent topic_subscriptions topic_messages].
  apply Forall_forall. intros r Hin s Hs Ha.
  rewrite fold_deliver_heap, decide_True in Hs by exact Hin.
  destruct (h !! r) as [s0|]; [|discriminate]. injection Hs as <-.
  rewrite last_spec_evict_snoc by exact Hk. unfold visited in *.
  destruct (sub_active s0) eqn:Ha0; [reflexivity|congruence].
Qed.

Lemma unsubscribe_up_to_date (h : Heap) (topic : Topic) (r : Ref) :
  up_to_date h topic -> up_to_date (unsubscribe h r) topic.
Proof.
  unfold up_to_date. intros Hup.
  eapply Forall_impl; [exact Hup|]. cbn beta. intros r' Hr' s Hs Ha.
  destruct (decide (r' = r)) as [->|Hne].
  - destruct (h !! r) as [s0|] eqn:Hr.
    + rewrite (unsubscribe_lookup _ _ _ Hr) in Hs. injection Hs as <-.
      discriminate Ha.
    + unfold unsubscribe in Hs. rewrite Hr in Hs. congruence.
  - rewrite unsubscribe_lookup_ne in Hs by exact Hne. exact (Hr' s Hs Ha).
Qed.

Lemma run_up_to_date (fuel : nat) (ops : list Op) :
  forall w w' : World,
    topic_maxLogSize (w_topic w) <> 0%Z ->
    up_to_date (w_heap w) (w_topic w) ->
    run fuel ops w = Some w' ->
    up_to_date (w_heap w') (w_topic w').
Proof.
  induction ops as [|o ops IH]; intros w w' Hk Hup; cbn [run].
  - intros [= <-]. exact Hup.
  - destruct o as [callback options|payload now|r]; cbn [step].
    + apply IH; cbn [w_heap w_topic].
      * destruct (subscribe_log (w_heap w) (w_topic w) callback options)
          as (_ & _ & ->). exact Hk.
      * apply subscribe_up_to_date. exact Hup.
    + destruct (sendMessage fuel (w_heap w) (w_topic w) payload now)
        as [res|] eqn:Hsend; [|discriminate].
      pose proof (sendMessage_Some_valid _ _ _ _ _ _ Hsend) as Hv.
      apply sendMessage_Some in Hsend. subst res.
      apply IH; cbn [w_heap w_topic sd_heap sd_topic].
      * exact Hk.
      * apply send_up_to_date. lia.
    + apply IH; cbn [w_heap w_topic]; [exact Hk|].
      apply unsubscribe_up_to_date. exact Hup.
Qed.

(** X10: in every state reached from a topic that [getTopic] created,
    through calls whose callbacks return without calling into the bus, an
    active subscription has the id of the newest message as its cursor
    ([null] while nothing was sent); re-subscribing with the id of an active
    subscription therefore replays nothing, whatever the strategy. *)
Theorem resubscribing_active_replays_nothing (bus : Bus) (name : TopicID)
    (maxLogSize : option Z) (fuel : nat) (h : Heap) (ops : list Op)
    (w' : World) (callback : SubscriptionCallback)
    (options : option SubsciptionOptions) (r : Ref) (s : Subscription) :
  find_topic name (bus_topics bus) = None ->
  run fuel ops (created_world bus name maxLogSize h) = Some w' ->
  find_subscription (w_heap w') (resolve_id (w_topic w') options)
                    (topic_subscriptions (w_topic w')) = Some (r, s) ->
  sub_active s = true ->
  sub_lastMessageId s = msg_id <$> last (topic_messages (w_topic w'))
  /\ sr_calls (subscribe (w_heap w') (w_topic w') callback options) = [].
Proof.
  intros Hfresh Hrun Hfind Ha.
  assert (Hup : up_to_date (w_heap w') (w_topic w')).
  { eapply run_up_to_date; [| |exact Hrun]; unfold created_world;
      cbn [w_heap w_topic]; rewrite getTopic_creates by exact Hfresh.
    - apply maxLogSize_or_default_not_zero.
    - constructor. }
  destruct (find_subscription_Some _ _ _ _ _ Hfind) as (Hr & _ & Hin).
  unfold up_to_date in Hup. rewrite Forall_forall in Hup.
  pose proof (Hup r Hin s Hr Ha) as Hcursor.
  split; [exact Hcursor|].
  rewrite (subscribe_update _ _ _ _ _ _ Hfind). cbn [sr_calls].
  unfold resume_calls. rewrite Hcursor, strict_eq_refl.
  cbn [negb]. rewrite andb_false_r. reflexivity.
Qed.

Lemma resubscribing_active_replays_nothing_witness :
  sr_calls (subscribe
              [ {| sub_id := 0; sub_topic := "testtopic";
                   sub_lastMessageId := Some 3%Z;
                   sub_callback := 1; sub_active := true |} ]
              {| topic_name := "testtopic";
                 topic_messages := [mkMessage 0 "some message" 1;
                                    mkMessage 1 "two" 2;
                                    mkMessage 2 "three" 3;
                                    mkMessage 3 "some message" 4];
                 topic_subscriptions := [0];
                 topic_maxLogSize := -1;
                 topic_nextSubId := 1;
                 topic_nextMessageID := 4 |}
              9 (with_id 0)) = [].
Proof.
  refine (proj2 (resubscribing_active_replays_nothing (mkBus []) "testtopic"
                   None 0 [] (OpSubscribe 1 None :: four_sends)
                   {| w_heap :=
                        [ {| sub_id := 0; sub_topic := "testtopic";
                             sub_lastMessageId := Some 3%Z;
                             sub_callback := 1; sub_active := true |} ];
                      w_topic :=
                        {| topic_name := "testtopic";
                           topic_messages := [mkMessage 0 "some message" 1;
                                              mkMessage 1 "two" 2;
                                              mkMessage 2 "three" 3;
                                              mkMessage 3 "some message" 4];
                           topic_subscriptions := [0];
                           topic_maxLogSize := -1;
                           topic_nextSubId := 1;
                           topic_nextMessageID := 4 |};
                      w_trace :=
                        [mkCall 1 (mkMessage 0 "some message" 1);
                         mkCall 1 (mkMessage 1 "two" 2);
                         mkCall 1 (mkMessage 2 "three" 3);
                         mkCall 1 (mkMessage 3 "some message" 4)] |}
                   9 (with_id 0) 0
                   {| sub_id := 0; sub_topic := "testtopic";
                      sub_lastMessageId := Some 3%Z;
                      sub_callback := 1; sub_active := true |}
                   eq_refl _ eq_refl eq_refl)).
  vm_compute. reflexivity.
Defined.

(** ** The ids of the subscriptions *)

Lemma sub_ids_same_ids (h h' : Heap) (refs : list Ref) :
  same_ids h h' -> sub_ids h refs = sub_ids h' refs.
Proof.
  intros Hsame. induction refs as [|r refs IH]; cbn [sub_ids]; [reflexivity|].
  specialize (Hsame r).
  destruct (h !! r) as [s|], (h' !! r) as [s'|]; simpl in Hsame;
    try discriminate; [|exact IH].
  injection Hsame as ->. rewrite IH. reflexivity.
Qed.

Lemma refs_valid_same_ids (h h' : Heap) (refs : list Ref) :
  same_ids h h' -> refs_valid h refs -> refs_valid h' refs.
Proof.
  intros Hsame Hvalid. unfold refs_valid in *.
  eapply Forall_impl; [exact Hvalid|]. cbn beta. intros r [s Hr].
  specialize (Hsame r). rewrite Hr in Hsame.
  destruct (h' !! r) as [s'|]; [eexists; reflexivity|discriminate].
Qed.

Lemma find_subscription_None (h : Heap) (id : SubscriptionID)
    (refs : list Ref) :
  find_subscription h id refs = None <-> id ∉ sub_ids h refs.
Proof.
  induction refs as [|r refs IH]; cbn [find_subscription sub_ids].
  - split; [intros _; apply not_elem_of_nil|reflexivity].
  - destruct (h !! r) as [s|]; [|exact IH].
    rewrite not_elem_of_cons.
    destruct (Z.eqb_spec (sub_id s) id) as [Heq|Hne].
    + split; [discriminate|]. intros [Hne _]. congruence.
    + rewrite IH. split; [intros Hnin; split; [congruence|exact Hnin]|tauto].
Qed.

Lemma sub_ids_snoc_new (h : Heap) (refs : list Ref) (s : Subscription) :
  refs_valid h refs ->
  sub_ids (h ++ [s]) (refs ++ [length h]) = sub_ids h refs ++ [sub_id s].
Proof.
  unfold refs_valid. induction 1 as [|r refs [s' Hr] _ IH]; cbn [app sub_ids].
  - rewrite lookup_snoc_new. reflexivity.
  - rewrite lookup_app_l by (eapply lookup_lt_Some; exact Hr).
    rewrite Hr, IH. reflexivity.
Qed.

Lemma sub_ids_length (h : Heap) (refs : list Ref) :
  refs_valid h refs -> length (sub_ids h refs) = length refs.
Proof.
  unfold refs_valid. induction 1 as [|r refs [s Hr] _ IH]; cbn [sub_ids length];
    [reflexivity|].
  rewrite Hr. cbn [length]. rewrite IH. reflexivity.
Qed.

Lemma sub_ids_injective (h : Heap) (refs : list Ref) :
  NoDup (sub_ids h refs) ->
  forall r1 r2 s1 s2,
    r1 ∈ refs -> r2 ∈ refs ->
    h !! r1 = Some s1 -> h !! r2 = Some s2 ->
    sub_id s1 = sub_id s2 -> r1 = r2.
Proof.
  assert (Hin : forall refs r s,
             r ∈ refs -> h !! r = Some s -> sub_id s ∈ sub_ids h refs).
  { intros l r s. induction 1 as [r l|r r' l _ IH]; intros Hr;
      cbn [sub_ids].
    - rewrite Hr. apply list_elem_of_here.
    - destruct (h !! r'); [apply list_elem_of_further|]; apply IH; exact Hr. }
  induction refs as [|r refs IH]; cbn [sub_ids]; intros Hnodup r1 r2 s1 s2
    Hr1 Hr2 Hs1 Hs2 Hid.
  - apply elem_of_nil in Hr1. contradiction.
  - destruct (h !! r) as [s|] eqn:Hr.
    + apply NoDup_cons in Hnodup as [Hnin Hnodup].
      apply elem_of_cons in Hr1 as [->|Hr1];
        apply elem_of_cons in Hr2 as [->|Hr2].
      * reflexivity.
      * exfalso. apply Hnin. rewrite Hr in Hs1. injection Hs1 as ->.
        rewrite Hid. eapply Hin; eassumption.
      * exfalso. apply Hnin. rewrite Hr in Hs2. injection Hs2 as ->.
        rewrite <- Hid. eapply Hin; eassumption.
      * eapply IH; eassumption.
    + apply elem_of_cons in Hr1 as [->|Hr1]; [congruence|].
      apply elem_of_cons in Hr2 as [->|Hr2]; [congruence|].
      eapply IH; eassumption.
Qed.

Lemma step_same_ids (fuel : nat) (w w' : World) (o : Op) :
  step fuel w o = Some w' ->
  (topic_subscriptions (w_topic w') = topic_subscriptions (w_topic w)
   /\ topic_nextSubId (w_topic w') = topic_nextSubId (w_topic w)
   /\ same_ids (w_heap w) (w_heap w'))
  \/ (exists callback options,
        o = OpSubscribe callback options
        /\ find_subscription (w_heap w) (resolve_id (w_topic w) options)
             (topic_subscriptions (w_topic w)) = None
        /\ topic_subscriptions (w_topic w')
           = topic_subscriptions (w_topic w) ++ [length (w_heap w)]
        /\ topic_nextSubId (w_topic w') = (topic_nextSubId (w_topic w) + 1)%Z
        /\ exists s,
             w_heap w' = w_heap w ++ [s]
             /\ sub_id s = resolve_id (w_topic w) options).
Proof.
  destruct o as [callback options|payload now|r]; cbn [step].
  - intros [= <-]. cbn [w_heap w_topic].
    destruct (find_subscription (w_heap w) (resolve_id (w_topic w) options)
                (topic_subscriptions (w_topic w))) as [[r s]|] eqn:Hfind.
    + left. rewrite (subscribe_update _ _ _ _ _ _ Hfind).
      cbn [sr_heap sr_topic].
      destruct (find_subscription_Some _ _ _ _ _ Hfind) as (Hr & _ & _).
      split; [reflexivity|]. split; [reflexivity|].
      eapply same_ids_insert; [exact Hr|reflexivity].
    + right. exists callback, options.
      rewrite (subscribe_create _ _ _ _ Hfind).
      cbn [sr_heap sr_topic topic_subscriptions topic_nextSubId].
      split; [reflexivity|]. split; [exact Hfind|]. split; [reflexivity|].
      split; [reflexivity|]. eexists. split; reflexivity.
  - destruct (sendMessage fuel (w_heap w) (w_topic w) payload now)
      as [res|] eqn:Hsend; [|discriminate].
    apply sendMessage_Some in Hsend. subst res. intros [= <-].
    left. cbn [w_heap w_topic sd_heap sd_topic spec_sent
               topic_subscriptions topic_nextSubId].
    split; [reflexivity|]. split; [reflexivity|].
    apply same_ids_fold_deliver.
  - intros [= <-]. left. cbn [w_heap w_topic].
    split; [reflexivity|]. split; [reflexivity|].
    apply same_ids_unsubscribe.
Qed.

Lemma run_unique_ids (fuel : nat) (ops : list Op) :
  forall w w' : World,
    refs_valid (w_heap w) (topic_subscriptions (w_topic w)) ->
    NoDup (sub_ids (w_heap w) (topic_subscriptions (w_topic w))) ->
    run fuel ops w = Some w' ->
    refs_valid (w_heap w') (topic_subscriptions (w_topic w'))
    /\ NoDup (sub_ids (w_heap w') (topic_subscriptions (w_topic w'))).
Proof.
  induction ops as [|o ops IH]; intros w w' Hvalid Hnodup; cbn [run].
  - intros [= <-]. split; assumption.
  - destruct (step fuel w o) as [w1|] eqn:Hstep; [|discriminate].
    apply IH.
    + destruct (step_same_ids _ _ _ _ Hstep)
        as [(Hsubs & _ & Hsame)
           |(callback & options & _ & _ & Hsubs & _ & s & Hheap & _)].
      * rewrite Hsubs. eapply refs_valid_same_ids; eassumption.
      * rewrite Hsubs, Hheap. unfold refs_valid in *.
        apply Forall_app. split.
        -- eapply Forall_impl; [exact Hvalid|]. cbn beta. intros r [s' Hr].
           exists s'. rewrite lookup_app_l; [exact Hr|].
           eapply lookup_lt_Some. exact Hr.
        -- constructor; [|constructor]. exists s. apply lookup_snoc_new.
    + destruct (step_same_ids _ _ _ _ Hstep)
        as [(Hsubs & _ & Hsame)
           |(callback & options & _ & Hnone & Hsubs & _ & s & Hheap & Hid)].
      * rewrite Hsubs, <- (sub_ids_same_ids _ _ _ Hsame). exact Hnodup.
      * rewrite Hsubs, Hheap, sub_ids_snoc_new by exact Hvalid.
        apply NoDup_app. split; [exact Hnodup|]. split.
        -- intros x Hx Hx'. apply list_elem_of_singleton in Hx'. subst x.
           apply find_subscription_None in Hnone. rewrite Hid in Hx.
           contradiction.
        -- apply NoDup_singleton.
Qed.

(** X11: in every state reached from a topic that [getTopic] created,
    through calls whose callbacks return without calling into the bus, the
    subscriptions of the topic have pairwise distinct ids (an explicit id
    that is taken updates, it never adds a second subscription with that
    id), and every address in the array holds a subscription. *)
Theorem subscription_ids_are_unique (bus : Bus) (name : TopicID)
    (maxLogSize : option Z) (fuel : nat) (h : Heap) (ops : list Op)
    (w' : World) :
  find_topic name (bus_topics bus) = None ->
  run fuel ops (created_world bus name maxLogSize h) = Some w' ->
  NoDup (sub_ids (w_heap w') (topic_subscriptions (w_topic w')))
  /\ length (sub_ids (w_heap w') (topic_subscriptions (w_topic w')))
     = length (topic_subscriptions (w_topic w'))
  /\ forall r1 r2 s1 s2,
       r1 ∈ topic_subscriptions (w_topic w') ->
       r2 ∈ topic_subscriptions (w_topic w') ->
       w_heap w' !! r1 = Some s1 -> w_heap w' !! r2 = Some s2 ->
       sub_id s1 = sub_id s2 -> r1 = r2.
Proof.
  intros Hfresh Hrun.
  destruct (run_unique_ids fuel ops (created_world bus name maxLogSize h) w')
    as [Hvalid Hnodup]; [| |exact Hrun|].
  - unfold created_world. cbn [w_heap w_topic].
    rewrite getTopic_creates by exact Hfresh. constructor.
  - unfold created_world. cbn [w_heap w_topic].
    rewrite getTopic_creates by exact Hfresh. constructor.
  - split; [exact Hnodup|]. split; [apply sub_ids_length; exact Hvalid|].
    apply sub_ids_injective. exact Hnodup.
Qed.

Lemma subscription_ids_are_unique_witness :
  exists w',
    run 0 [OpSubscribe 1 (with_id 7); OpSubscribe 2 None;
           OpSubscribe 3 (with_id 7); OpSubscribe 4 (with_id 1)]
        (created_world (mkBus []) "testtopic" None []) = Some w'
    /\ sub_ids (w_heap w') (topic_subscriptions (w_topic w')) = [7; 1]%Z
    /\ NoDup (sub_ids (w_heap w') (topic_subscriptions (w_topic w'))).
Proof.
  eexists. split; [vm_compute; reflexivity|]. split; [reflexivity|].
  refine (proj1 (subscription_ids_are_unique (mkBus []) "testtopic" None 0 []
                   [OpSubscribe 1 (with_id 7); OpSubscribe 2 None;
                    OpSubscribe 3 (with_id 7); OpSubscribe 4 (with_id 1)]
                   _ eq_refl _)).
  vm_compute. reflexivity.
Defined.

Lemma subscribes_cons (o : Op) (ops : list Op) :
  subscribes (o :: ops) = (if is_subscribe o then 1 else 0) + subscribes ops.
Proof. unfold subscribes. simpl. destruct (is_subscribe o); reflexivity. Qed.

Lemma run_counts_ids (fuel : nat) (ops : list Op) :
  Forall no_explicit_id ops ->
  forall w w' : World,
    refs_valid (w_heap w) (topic_subscriptions (w_topic w)) ->
    sub_ids (w_heap w) (topic_subscriptions (w_topic w))
    = seqZ 0 (Z.of_nat (length (topic_subscriptions (w_topic w)))) ->
    topic_nextSubId (w_topic w)
    = Z.of_nat (length (topic_subscriptions (w_topic w))) ->
    run fuel ops w = Some w' ->
    length (topic_subscriptions (w_topic w'))
    = length (topic_subscriptions (w_topic w)) + subscribes ops
    /\ sub_ids (w_heap w') (topic_subscriptions (w_topic w'))
       = seqZ 0 (Z.of_nat (length (topic_subscriptions (w_topic w'))))
    /\ topic_nextSubId (w_topic w')
       = Z.of_nat (length (topic_subscriptions (w_topic w'))).
Proof.
  induction 1 as [|o ops Ho _ IH]; intros w w' Hvalid Hids Hnext; cbn [run].
  - intros [= <-]. unfold subscribes. simpl.
    split; [lia|]. split; assumption.
  - rewrite subscribes_cons.
    destruct (step fuel w o) as [w1|] eqn:Hstep; [|discriminate].
    intros Hrun.
    destruct o as [callback options|payload now|r]; cbn [is_subscribe].
    + cbn [step] in Hstep. injection Hstep as <-.
      assert (Hfind : find_subscription (w_heap w)
                        (resolve_id (w_topic w) options)
                        (topic_subscriptions (w_topic w)) = None).
      { apply find_subscription_None.
        rewrite (resolve_id_without_id _ _ Ho), Hids, Hnext, elem_of_seqZ.
        lia. }
      rewrite (subscribe_create _ _ _ _ Hfind) in Hrun.
      cbn [sr_heap sr_topic] in Hrun.
      apply IH in Hrun; cbn [w_heap w_topic topic_subscriptions
                               topic_nextSubId] in *.
      * rewrite length_app in Hrun. cbn [length] in Hrun.
        destruct Hrun as (Hlen & Hids' & Hnext').
        split; [lia|]. split; assumption.
      * unfold refs_valid in *. apply Forall_app. split.
        -- eapply Forall_impl; [exact Hvalid|]. cbn beta. intros r [s Hr].
           exists s. rewrite lookup_app_l; [exact Hr|].
           eapply lookup_lt_Some. exact Hr.
        -- constructor; [|constructor]. eexists. apply lookup_snoc_new.
      * rewrite sub_ids_snoc_new by exact Hvalid. cbn [sub_id].
        rewrite (resolve_id_without_id _ _ Ho), Hids, Hnext, length_app.
        cbn [length]. rewrite Nat.add_1_r, seqZ_S. reflexivity.
      * rewrite length_app. cbn [length]. lia.
    + destruct (step_same_ids _ _ _ _ Hstep)
        as [(Hsubs & Hn & Hsame)|(c & o' & Habs & _)]; [|discriminate Habs].
      apply IH in Hrun.
      * rewrite Hsubs in Hrun. destruct Hrun as (Hlen & Hrest).
        split; [lia|exact Hrest].
      * rewrite Hsubs. eapply refs_valid_same_ids; eassumption.
      * rewrite Hsubs, <- (sub_ids_same_ids _ _ _ Hsame). exact Hids.
      * rewrite Hsubs, Hn. exact Hnext.
    + destruct (step_same_ids _ _ _ _ Hstep)
        as [(Hsubs & Hn & Hsame)|(c & o' & Habs & _)]; [|discriminate Habs].
      apply IH in Hrun.
      * rewrite Hsubs in Hrun. destruct Hrun as (Hlen & Hrest).
        split; [lia|exact Hrest].
      * rewrite Hsubs. eapply refs_valid_same_ids; eassumption.
      * rewrite Hsubs, <- (sub_ids_same_ids _ _ _ Hsame). exact Hids.
      * rewrite Hsubs, Hn. exact Hnext.
Qed.

(** X12: on a topic that [getTopic] created, with callbacks that return
    without calling into the bus, as long as no [subscribe] passes an
    explicit id, every [subscribe] creates a subscription: after [n] of
    them the topic has [n] subscriptions with the ids [0], ..., [n-1] in the
    order of registration, and [nextSubId] is [n]. *)
Theorem subscribe_without_id_counts_up (bus : Bus) (name : TopicID)
    (maxLogSize : option Z) (fuel : nat) (h : Heap) (ops : list Op)
    (w' : World) :
  find_topic name (bus_topics bus) = None ->
  Forall no_explicit_id ops ->
  run fuel ops (created_world bus name maxLogSize h) = Some w' ->
  length (topic_subscriptions (w_topic w')) = subscribes ops
  /\ sub_ids (w_heap w') (topic_subscriptions (w_topic w'))
     = seqZ 0 (Z.of_nat (subscribes ops))
  /\ topic_nextSubId (w_topic w') = Z.of_nat (subscribes ops).
Proof.
  intros Hfresh Hops Hrun.
  destruct (run_counts_ids fuel ops Hops
              (created_world bus name maxLogSize h) w')
    as (Hlen & Hids & Hnext); try exact Hrun;
    try (unfold created_world; cbn [w_heap w_topic];
         rewrite getTopic_creates by exact Hfresh; cbn; constructor).
  unfold created_world in Hlen. cbn [w_topic] in Hlen.
  rewrite getTopic_creates in Hlen by exact Hfresh.
  cbn [topic_subscriptions length] in Hlen. rewrite Nat.add_0_l in Hlen.
  rewrite Hids, Hnext, Hlen. repeat split.
Qed.

Lemma subscribe_without_id_counts_up_witness :
  exists w',
    run 0 scenario_without_ids
        (created_world (mkBus []) "testtopic" None []) = Some w'
    /\ sub_ids (w_heap w') (topic_subscriptions (w_topic w')) = [0; 1; 2]%Z
    /\ topic_nextSubId (w_topic w') = 3%Z.
Proof.
  eexists. split; [vm_compute; reflexivity|].
  refine (proj2 (subscribe_without_id_counts_up (mkBus []) "testtopic" None
                   0 [] scenario_without_ids _ eq_refl _ _)).
  - repeat constructor.
  - vm_compute. reflexivity.
Defined.

(** ** Subscribing and receiving *)

Lemma spec_fanout_member (h : Heap) (message : Message) (refs : list Ref)
    (r : Ref) (s : Subscription) :
  r ∈ refs -> h !! r = Some s -> sub_active s = true ->
  mkCall (sub_callback s) message ∈ spec_fanout h message refs.
Proof.
  intros Hin Hr Ha. induction Hin as [r refs|r r' refs _ IH];
    cbn [spec_fanout].
  - rewrite Hr, Ha. apply list_elem_of_here.
  - destruct (h !! r') as [s'|]; [|exact (IH Hr)].
    destruct (sub_active s'); [apply list_elem_of_further|]; exact (IH Hr).
Qed.

(** What [subscribe] returns, on either path: the address of a
    subscription of the topic that is active, has the effective id and the
    callback passed, and has the newest message as its cursor. *)
Lemma subscribe_returns (h : Heap) (topic : Topic)
    (callback : SubscriptionCallback) (options : option SubsciptionOptions) :
  let res := subscribe h topic callback options in
  sr_ref res ∈ topic_subscriptions (sr_topic res)
  /\ exists s,
       sr_heap res !! sr_ref res = Some s
       /\ sub_id s = resolve_id topic options
       /\ sub_callback s = callback
       /\ sub_active s = true
       /\ sub_lastMessageId s = msg_id <$> last (topic_messages topic).
Proof.
  intros res. subst res.
  destruct (find_subscription h (resolve_id topic options)
              (topic_subscriptions topic)) as [[r s0]|] eqn:Hfind.
  - rewrite (subscribe_update _ _ _ _ _ _ Hfind).
    cbn [sr_heap sr_topic sr_ref].
    destruct (find_subscription_Some _ _ _ _ _ Hfind) as (Hr & Hid & Hin).
    split; [exact Hin|]. eexists. split.
    + apply list_lookup_insert_eq. eapply lookup_lt_Some. exact Hr.
    + cbn [sub_id sub_callback sub_active sub_lastMessageId].
      rewrite resolve_startActive_true. repeat split. exact Hid.
  - rewrite (subscribe_create _ _ _ _ Hfind).
    cbn [sr_heap sr_topic sr_ref topic_subscriptions].
    split; [apply elem_of_app; right; apply list_elem_of_here|].
    eexists. split; [apply lookup_snoc_new|].
    cbn [sub_id sub_callback sub_active sub_lastMessageId].
    rewrite resolve_startActive_true. repeat split.
Qed.

(** X13: on a topic whose [maxLogSize] is [-1] or a bound [k >= 0], with
    callbacks that return without calling into the bus: whatever the options
    of a [subscribe] (an id that is new or taken, any strategy,
    [startActive] true or false), the next [sendMessage] on the topic
    returns, invokes the callback that was passed with the new message and
    leaves the subscription returned active, with that callback and with
    the new id as its cursor. *)
Theorem subscribe_then_send_delivers (fuel : nat) (h : Heap) (topic : Topic)
    (callback : SubscriptionCallback) (options : option SubsciptionOptions)
    (payload : Payload) (now : Z) :
  valid_maxLogSize topic ->
  enough_fuel fuel topic ->
  let res := subscribe h topic callback options in
  exists sent,
    sendMessage fuel (sr_heap res) (sr_topic res) payload now = Some sent
    /\ mkCall callback (mkMessage (topic_nextMessageID topic) payload now)
       ∈ sd_calls sent
    /\ exists s,
         sd_heap sent !! sr_ref res = Some s
         /\ sub_callback s = callback
         /\ sub_active s = true
         /\ sub_lastMessageId s = Some (topic_nextMessageID topic).
Proof.
  intros Hv Hfuel res.
  destruct (subscribe_returns h topic callback options)
    as (Hin & s & Hs & _ & Hcb & Ha & _).
  destruct (subscribe_log h topic callback options) as (Hm & Hn & Hk).
  fold res in Hin, Hs, Hm, Hn, Hk.
  eexists. split.
  { apply sendMessage_returns.
    - unfold valid_maxLogSize. rewrite Hk. exact Hv.
    - unfold enough_fuel. rewrite Hk, Hm. exact Hfuel. }
  cbn [sd_calls sd_heap]. unfold new_message. rewrite Hn. split.
  - rewrite <- Hcb. eapply spec_fanout_member; eassumption.
  - exists (visited (mkMessage (topic_nextMessageID topic) payload now) s).
    split.
    + rewrite fold_deliver_heap, decide_True by exact Hin. rewrite Hs.
      reflexivity.
    + unfold visited. rewrite Ha.
      cbn [set_lastMessageId sub_callback sub_active sub_lastMessageId msg_id].
      split; [exact Hcb|]. split; [exact Ha|reflexivity].
Qed.

Lemma subscribe_then_send_delivers_witness :
  exists sent,
    sendMessage 2
      (sr_heap (subscribe demo_heap demo_topic 20 (with_startActive false)))
      (sr_topic (subscribe demo_heap demo_topic 20 (with_startActive false)))
      "c" 102 = Some sent
    /\ mkCall 20 (mkMessage 2 "c" 102) ∈ sd_calls sent.
Proof.
  destruct (subscribe_then_send_delivers 2 demo_heap demo_topic 20
              (with_startActive false) "c" 102)
    as (sent & Hsent & Hcall & _).
  - unfold valid_maxLogSize. simpl. lia.
  - right. simpl. lia.
  - exists sent. split; [exact Hsent|exact Hcall].
Defined.

Lemma sends_to_one (fuel : nat) (r : Ref) (callback : SubscriptionCallback)
    (ops : list Op) :
  Forall (fun o => is_send o = true) ops ->
  forall w : World,
    runnable fuel (w_topic w) ->
    topic_subscriptions (w_topic w) = [r] ->
    (exists s, w_heap w !! r = Some s
               /\ sub_callback s = callback /\ sub_active s = true) ->
    exists w',
      run fuel ops w = Some w'
      /\ w_trace w'
         = w_trace w
           ++ map (mkCall callback)
                  (sent_from (topic_nextMessageID (w_topic w)) ops)
      /\ topic_nextMessageID (w_topic w')
         = (topic_nextMessageID (w_topic w) + Z.of_nat (length ops))%Z
      /\ exists s', w_heap w' !! r = Some s'
                    /\ sub_active s' = true
                    /\ (ops <> [] ->
                        sub_lastMessageId s'
                        = Some (topic_nextMessageID (w_topic w')  - 1)%Z).
Proof.
  induction 1 as [|o ops Ho _ IH]; intros w Hrun Hsubs (s & Hr & Hcb & Ha).
  - exists w. cbn [run sent_from map length].
    rewrite app_nil_r, Z.add_0_r.
    split; [reflexivity|]. split; [reflexivity|]. split; [reflexivity|].
    exists s. split; [exact Hr|]. split; [exact Ha|]. congruence.
  - destruct o as [|payload now|]; try discriminate Ho.
    cbn [run step sent_from map].
    destruct (runnable_send fuel (w_topic w) payload now Hrun)
      as (Hv & Hfuel & Hrun').
    rewrite sendMessage_returns by assumption.
    cbn [sd_heap sd_topic sd_calls].
    set (m := new_message (w_topic w) payload now).
    assert (Hr' : (fold_left (deliver m) (topic_subscriptions (w_topic w))
                             (w_heap w, [])).1 !! r
                  = Some (set_lastMessageId s (Some (msg_id m)))).
    { rewrite fold_deliver_heap, Hsubs.
      rewrite decide_True by apply list_elem_of_here.
      rewrite Hr. unfold visited. simpl. rewrite Ha. reflexivity. }
    use_IH IH as (w' & Hw' & Htrace & Hnext & s' & Hs' & Ha' & Hcur).
    + exact Hrun'.
    + cbn [w_topic spec_sent topic_subscriptions]. exact Hsubs.
    + cbn [w_heap]. eexists. split; [exact Hr'|].
      split; [exact Hcb|exact Ha].
    + exists w'. split; [exact Hw'|].
      cbn [w_trace w_topic spec_sent topic_nextMessageID] in Htrace, Hnext.
      split.
      { rewrite Htrace, Hsubs. cbn [spec_fanout]. rewrite Hr, Ha, Hcb.
        rewrite <- app_assoc. reflexivity. }
      split; [rewrite Hnext; cbn [length]; lia|].
      exists s'. split; [exact Hs'|]. split; [exact Ha'|]. intros _.
      destruct ops as [|o' ops'].
      * cbn [run] in Hw'. injection Hw' as <-. cbn [w_heap w_topic] in *.
        rewrite Hr' in Hs'. injection Hs' as <-.
        cbn [set_lastMessageId sub_lastMessageId spec_sent
             topic_nextMessageID].
        f_equal. lia.
      * apply Hcur. discriminate.
Qed.

(** X14: a callback that returns without calling into the bus,
    subscribed as the first and only subscription of a topic that [getTopic]
    created (bound [-1] or [k >= 1]), with whatever options, receives every
    message sent afterwards exactly once and in the order of the sends,
    nothing else, and its cursor ends on the last message. *)
Theorem lone_subscriber_receives_everything (bus : Bus) (name : TopicID)
    (maxLogSize : option Z) (fuel : nat) (h : Heap)
    (callback : SubscriptionCallback) (options : option SubsciptionOptions)
    (ops : list Op) :
  find_topic name (bus_topics bus) = None ->
  (-1 <= maxLogSize_or_default maxLogSize)%Z ->
  2 <= fuel ->
  Forall (fun o => is_send o = true) ops ->
  exists w',
    run fuel (OpSubscribe callback options :: ops)
        (created_world bus name maxLogSize h) = Some w'
    /\ w_trace w' = map (mkCall callback) (sent_from 0 ops)
    /\ exists s,
         w_heap w' !! length h = Some s
         /\ sub_active s = true
         /\ (ops <> [] ->
             sub_lastMessageId s = Some (Z.of_nat (length ops) - 1)%Z).
Proof.
  intros Hfresh Hk Hfuel Hops. cbn [run step].
  unfold created_world. cbn [w_heap w_topic w_trace].
  rewrite getTopic_creates by exact Hfresh.
  rewrite subscribe_create by reflexivity.
  cbn [sr_heap sr_topic sr_calls topic_messages topic_subscriptions app].
  assert (Hnone : forall strategy, fresh_calls strategy [] callback = [])
    by (intros []; reflexivity).
  rewrite Hnone.
  destruct (sends_to_one fuel (length h) callback ops Hops
              {| w_heap :=
                   h ++ [{| sub_id :=
                              resolve_id
                                {| topic_name := name;
                                   topic_messages := [];
                                   topic_subscriptions := [];
                                   topic_maxLogSize :=
                                     maxLogSize_or_default maxLogSize;
                                   topic_nextSubId := 0;
                                   topic_nextMessageID := 0 |} options;
                            sub_topic := name;
                            sub_lastMessageId := msg_id <$> last [];
                            sub_callback := callback;
                            sub_active := resolve_startActive options |}];
                 w_topic :=
                   {| topic_name := name;
                      topic_messages := [];
                      topic_subscriptions := [length h];
                      topic_maxLogSize := maxLogSize_or_default maxLogSize;
                      topic_nextSubId := 0 + 1;
                      topic_nextMessageID := 0 |};
                 w_trace := [] |})
    as (w' & Hw' & Htrace & Hnext & s' & Hs' & Ha' & Hcur).
  - unfold runnable. cbn [w_topic topic_maxLogSize topic_messages length].
    destruct (Z.eq_dec (maxLogSize_or_default maxLogSize) (-1)%Z);
      [left; assumption|right; lia].
  - reflexivity.
  - cbn [w_heap]. eexists. split; [apply lookup_snoc_new|].
    split; [reflexivity|apply resolve_startActive_true].
  - exists w'. split; [exact Hw'|]. split; [exact Htrace|].
    exists s'. split; [exact Hs'|]. split; [exact Ha'|].
    intros Hne. rewrite (Hcur Hne), Hnext. reflexivity.
Qed.

Lemma lone_subscriber_receives_everything_witness :
  exists w',
    run 2 (OpSubscribe 1 (with_strategy IGNORE) :: four_sends)
        (created_world (mkBus []) "testtopic" (Some 2%Z) []) = Some w'
    /\ w_trace w'
       = [mkCall 1 (mkMessage 0 "some message" 1);
          mkCall 1 (mkMessage 1 "two" 2);
          mkCall 1 (mkMessage 2 "three" 3);
          mkCall 1 (mkMessage 3 "some message" 4)].
Proof.
  destruct (lone_subscriber_receives_everything (mkBus []) "testtopic"
              (Some 2%Z) 2 [] 1 (with_strategy IGNORE) four_sends)
    as (w' & Hw' & Htrace & _).
  - reflexivity.
  - simpl. lia.
  - lia.
  - repeat constructor.
  - exists w'. split; [exact Hw'|exact Htrace].
Defined.

(** ** What a resumed subscription receives *)

Lemma newer_than_ids (c : MessageID) (messages : list Message) :
  forall a : Z,
    consecutive a messages ->
    map msg_id (newer_than c messages)
    = seqZ (Z.max a (c + 1))
           (a + Z.of_nat (length messages) - Z.max a (c + 1)).
Proof.
  induction messages as [|x messages IH]; intros a Hc.
  - cbn [newer_than List.filter map length]. rewrite seqZ_nil by lia.
    reflexivity.
  - destruct Hc as [Hx Hc]. specialize (IH _ Hc).
    unfold newer_than in *. cbn [List.filter length]. rewrite Hx.
    destruct (Z.ltb_spec c a) as [Hlt|Hge].
    + cbn [map]. rewrite IH, Hx.
      replace (Z.max (a + 1) (c + 1)) with (a + 1)%Z by lia.
      replace (Z.max a (c + 1)) with a by lia.
      rewrite (seqZ_cons a) by lia. f_equal. f_equal; lia.
    + rewrite IH.
      replace (Z.max (a + 1) (c + 1)) with (c + 1)%Z by lia.
      replace (Z.max a (c + 1)) with (c + 1)%Z by lia.
      f_equal. lia.
Qed.

(** X15: in a reachable state, re-subscribing with [full] a subscription
    whose cursor is a non-zero id [c] replays the messages with the ids
    from [c + 1] (or from the oldest retained id, if that is larger) up to
    the newest, each once and in ascending order, all to the callback
    passed: every missed message that is still in the log, and none that
    was seen. *)
Theorem resume_full_replays_missed_range (h : Heap) (topic : Topic)
    (callback : SubscriptionCallback) (options : option SubsciptionOptions)
    (r : Ref) (s : Subscription) (c : MessageID) :
  bus_ok h topic ->
  find_subscription h (resolve_id topic options) (topic_subscriptions topic)
  = Some (r, s) ->
  resolve_backlogStrategy options = FULL ->
  sub_lastMessageId s = Some c ->
  c <> 0%Z ->
  let oldest :=
    (topic_nextMessageID topic - Z.of_nat (length (topic_messages topic)))%Z in
  let calls := sr_calls (subscribe h topic callback options) in
  map (fun call => msg_id (call_message call)) calls
  = seqZ (Z.max oldest (c + 1))
         (topic_nextMessageID topic - Z.max oldest (c + 1))
  /\ Forall (fun call => call_callback call = callback) calls.
Proof.
  intros Hok Hfind Hfull Hc Hnz oldest calls. subst oldest calls.
  destruct (bus_ok_found _ _ _ _ _ Hok Hfind) as [Hlog Hcursor].
  unfold cursor_ok in Hcursor. rewrite Hc in Hcursor. unfold log_ok in Hlog.
  rewrite (subscribe_update _ _ _ _ _ _ Hfind). cbn [sr_calls].
  unfold resume_calls. rewrite Hc, Hfull, resolve_startActive_true.
  destruct (last (topic_messages topic)) as [m|] eqn:Hlast.
  2:{ apply last_None in Hlast. rewrite Hlast. rewrite andb_false_r.
      cbn [map length]. rewrite seqZ_nil by lia. split; constructor. }
  pose proof (consecutive_last _ _ _ Hlog Hlast) as Hm.
  destruct (Z.eq_dec c (msg_id m)) as [Heq|Hne].
  - assert (Hguard :
              truthy (Some c)
              && negb (strict_eq (Some c) (msg_id <$> Some m))
              && non_null (Some m) && true = false).
    { simpl. rewrite Heq, Z.eqb_refl. simpl. rewrite andb_false_r.
      reflexivity. }
    rewrite Hguard. cbn [map]. rewrite seqZ_nil by lia. split; constructor.
  - assert (Hguard :
              truthy (Some c)
              && negb (strict_eq (Some c) (msg_id <$> Some m))
              && non_null (Some m) && true = true).
    { simpl. destruct (Z.eqb_spec c 0) as [|_]; [contradiction|].
      destruct (Z.eqb_spec c (msg_id m)) as [|_]; [contradiction|].
      reflexivity. }
    rewrite Hguard.
    rewrite (resume_window c _ _ Hlog) by lia. split.
    + rewrite map_map. cbn [call_message].
      change (fun x : Message => msg_id x) with msg_id.
      rewrite (newer_than_ids c _ _ Hlog). f_equal. lia.
    + apply Forall_forall. intros call Hin.
      apply list_elem_of_In, in_map_iff in Hin as (x & <- & _). reflexivity.
Qed.

Lemma resume_full_replays_missed_range_witness :
  map (fun call => msg_id (call_message call))
      (sr_calls (subscribe gap_heap gap_topic 1 (with_id 0)))
  = [3; 4]%Z.
Proof.
  refine (proj1 (resume_full_replays_missed_range gap_heap gap_topic 1
                   (with_id 0) 0
                   {| sub_id := 0; sub_topic := "testtopic";
                      sub_lastMessageId := Some 1%Z;
                      sub_callback := 1; sub_active := false |} 1%Z
                   _ eq_refl eq_refl eq_refl _)).
  - split.
    + unfold log_ok. simpl. tauto.
    + repeat constructor. eexists. split; [reflexivity|].
      unfold cursor_ok. simpl. lia.
  - lia.
Defined.

(** ** What [subscribe] leaves alone *)


(** ** Pausing and resuming *)

Lemma sent_from_lower (ops : list Op) :
  forall next : Z,
    Forall (fun m => (next <= msg_id m)%Z) (sent_from next ops).
Proof.
  induction ops as [|o ops IH]; intros next; [constructor|].
  destruct o as [callback options|payload now|r]; cbn [sent_from];
    try apply IH.
  constructor; [simpl; lia|].
  eapply Forall_impl; [apply IH|]. simpl. intros; lia.
Qed.

Lemma consecutive_upper (messages : list Message) :
  forall a : Z,
    consecutive a messages ->
    Forall (fun m => (msg_id m < a + Z.of_nat (length messages))%Z) messages.
Proof.
  induction messages as [|x messages IH]; intros a Hc; [constructor|].
  destruct Hc as [Hx Hc]. constructor; [cbn [length]; lia|].
  eapply Forall_impl; [apply IH; exact Hc|]. cbn [length]. simpl.
  intros; lia.
Qed.

Lemma newer_than_none (c : MessageID) (messages : list Message) :
  Forall (fun m => (msg_id m <= c)%Z) messages ->
  newer_than c messages = [].
Proof.
  unfold newer_than. induction 1 as [|x l Hx _ IH]; simpl; [reflexivity|].
  destruct (Z.ltb_spec c (msg_id x)); [lia|exact IH].
Qed.

Lemma sends_keep_subscriptions (fuel : nat) (ops : list Op) :
  Forall (fun o => is_send o = true) ops ->
  forall w w' : World,
    run fuel ops w = Some w' ->
    topic_subscriptions (w_topic w') = topic_subscriptions (w_topic w)
    /\ topic_nextSubId (w_topic w') = topic_nextSubId (w_topic w)
    /\ same_ids (w_heap w) (w_heap w').
Proof.
  induction 1 as [|o ops Ho _ IH]; intros w w'; cbn [run].
  - intros [= <-]. split; [reflexivity|]. split; [reflexivity|].
    apply same_ids_refl.
  - destruct (step fuel w o) as [w1|] eqn:Hstep; [|discriminate].
    intros Hrun. destruct (IH _ _ Hrun) as (Hsubs & Hnext & Hsame).
    destruct (step_same_ids _ _ _ _ Hstep)
      as [(Hsubs1 & Hnext1 & Hsame1)|(c & o' & -> & _)];
      [|discriminate Ho].
    split; [congruence|]. split; [congruence|].
    eapply same_ids_trans; eassumption.
Qed.

(** X17: pausing and resuming, on an unbounded topic in a reachable state.
    A subscription that is up to date, its cursor a non-zero id, is
    unsubscribed; any number of messages is sent; re-subscribing with its id
    and [full] then invokes the callback passed with exactly the messages
    sent in between, each once, in the order of the sends. *)
Theorem pause_then_resume_replays_what_was_sent (fuel : nat) (h : Heap)
    (topic : Topic) (callback : SubscriptionCallback)
    (options : option SubsciptionOptions) (r : Ref) (s : Subscription)
    (c : MessageID) (ops : list Op) :
  bus_ok h topic ->
  topic_maxLogSize topic = (-1)%Z ->
  find_subscription h (resolve_id topic options) (topic_subscriptions topic)
  = Some (r, s) ->
  resolve_backlogStrategy options = FULL ->
  sub_lastMessageId s = Some c ->
  c <> 0%Z ->
  msg_id <$> last (topic_messages topic) = Some c ->
  Forall (fun o => is_send o = true) ops ->
  exists w',
    run fuel (OpUnsubscribe r :: ops)
        {| w_heap := h; w_topic := topic; w_trace := [] |} = Some w'
    /\ sr_calls (subscribe (w_heap w') (w_topic w') callback options)
       = map (mkCall callback) (sent_from (topic_nextMessageID topic) ops).
Proof.
  intros Hok Hmax Hfind Hfull Hc Hnz Hnewest Hops.
  destruct (find_subscription_Some _ _ _ _ _ Hfind) as (Hr & _ & _).
  cbn [run step w_heap w_topic w_trace].
  set (w0 := {| w_heap := unsubscribe h r; w_topic := topic;
                w_trace := [] |}).
  assert (Hrun0 : runnable fuel (w_topic w0)) by (left; exact Hmax).
  destruct (run_log_content fuel ops w0 Hrun0) as (w' & Hw' & Hlog).
  cbn [w_topic w0] in Hlog. rewrite Hmax, spec_evict_unbounded in Hlog.
  exists w'. split; [exact Hw'|].
  destruct (sends_keep_subscriptions fuel ops Hops _ _ Hw')
    as (Hsubs & Hnext & Hsame).
  cbn [w_topic w_heap w0] in Hsubs, Hnext, Hsame.
  destruct (sends_skip_unsubscribed fuel h r s ops Hr Hops w0 Hrun0)
    as (w'' & Hw'' & Hr' & _); [intros r0; reflexivity
                               |apply unsubscribe_lookup; exact Hr
                               |constructor|].
  rewrite Hw' in Hw''. injection Hw'' as <-.
  assert (Hok' : bus_ok (w_heap w') (w_topic w')).
  { eapply run_bus_ok; [|exact Hw']. cbn [w_heap w_topic w0].
    apply unsubscribe_bus_ok. exact Hok. }
  assert (Hid : resolve_id (w_topic w') options = resolve_id topic options).
  { destruct options as [[[i|] strategy active]|]; cbn [resolve_id opt_id];
      congruence. }
  assert (Hfind' : find_subscription (w_heap w')
                     (resolve_id (w_topic w') options)
                     (topic_subscriptions (w_topic w'))
                   = Some (r, set_active s false)).
  { rewrite Hid, Hsubs.
    destruct (find_subscription_same_ids h (w_heap w') _ _ _ _
                (same_ids_trans _ _ _ (same_ids_unsubscribe h r) Hsame)
                Hfind) as [s' Hs'].
    destruct (find_subscription_Some _ _ _ _ _ Hs') as (Hs'' & _ & _).
    congruence. }
  rewrite (subscribe_update _ _ _ _ _ _ Hfind'). cbn [sr_calls].
  unfold resume_calls. cbn [set_active sub_lastMessageId].
  rewrite Hc, Hfull, resolve_startActive_true, Hlog.
  destruct Hok as [Hlog0 _]. unfold log_ok in Hlog0.
  destruct (last (topic_messages topic)) as [m0|] eqn:Hlast0;
    [|discriminate Hnewest].
  injection Hnewest as Hm0.
  pose proof (consecutive_last _ _ _ Hlog0 Hlast0) as Hc0.
  assert (Hnext0 : topic_nextMessageID topic = (c + 1)%Z) by lia.
  destruct (sent_from (topic_nextMessageID topic) ops) as [|m1 sent]
    eqn:Hsent.
  - rewrite app_nil_r, Hlast0. cbn [fmap option_fmap option_map].
    rewrite Hm0, strict_eq_refl. cbn [negb]. rewrite !andb_false_r.
    reflexivity.
  - pose proof (sent_from_lower ops (topic_nextMessageID topic)) as Hlower.
    rewrite Hsent in Hlower.
    assert (Hlast : exists m, last (topic_messages topic ++ m1 :: sent)
                              = Some m /\ (c < msg_id m)%Z).
    { destruct (last (m1 :: sent)) as [m|] eqn:Hl.
      - exists m. rewrite last_app, Hl. split; [reflexivity|].
        apply last_Some in Hl as [front Hfront]. rewrite Hfront in Hlower.
        apply Forall_app in Hlower as [_ Hlower].
        apply Forall_cons in Hlower as [Hlower _]. lia.
      - apply last_None in Hl. discriminate Hl. }
    destruct Hlast as (m & Hlast & Hgt). rewrite Hlast.
    assert (Hguard :
              truthy (Some c)
              && negb (strict_eq (Some c) (msg_id <$> Some m))
              && non_null (Some m) && true = true).
    { simpl. destruct (Z.eqb_spec c 0) as [|_]; [contradiction|].
      destruct (Z.eqb_spec c (msg_id m)) as [|_]; [lia|]. reflexivity. }
    rewrite Hguard. f_equal.
    destruct Hok' as [Hlog' _]. unfold log_ok in Hlog'. rewrite Hlog in Hlog'.
    rewrite (resume_window c _ _ Hlog').
    + unfold newer_than. rewrite List.filter_app.
      fold (newer_than c (topic_messages topic)).
      fold (newer_than c (m1 :: sent)).
      rewrite newer_than_none, newer_than_all; [reflexivity| |].
      * eapply Forall_impl; [exact Hlower|]. simpl. intros; lia.
      * eapply Forall_impl; [apply consecutive_upper; exact Hlog0|].
        simpl. intros; lia.
    + pose proof (consecutive_last _ _ _ Hlog' Hlast). lia.
Qed.

Lemma pause_then_resume_replays_what_was_sent_witness :
  exists w',
    run 0 (OpUnsubscribe 0 :: four_sends)
        {| w_heap := demo_heap;
           w_topic := set_maxLogSize_unbounded demo_topic;
           w_trace := [] |} = Some w'
    /\ sr_calls (subscribe (w_heap w') (w_topic w') 30 (with_id 0))
       = [mkCall 30 (mkMessage 2 "some message" 1);
          mkCall 30 (mkMessage 3 "two" 2);
          mkCall 30 (mkMessage 4 "three" 3);
          mkCall 30 (mkMessage 5 "some message" 4)].
Proof.
  apply (pause_then_resume_replays_what_was_sent 0 demo_heap
           (set_maxLogSize_unbounded demo_topic) 30 (with_id 0) 0
           {| sub_id := 0; sub_topic := "news";
              sub_lastMessageId := Some 1%Z;
              sub_callback := 10; sub_active := true |} 1%Z four_sends).
  - split.
    + unfold log_ok. simpl. tauto.
    + repeat constructor; (eexists; split; [reflexivity|]);
        unfold cursor_ok; simpl; lia.
  - reflexivity.
  - reflexivity.
  - reflexivity.
  - reflexivity.
  - lia.
  - reflexivity.
  - repeat constructor.
Defined.
